(** * ICLED driver (Core/Src/icled.c, Core/Inc/icled.h)

    A shallow embedding of the GRB pixel store, of the bit expansion done by
    [ICLED_Show] into the PWM compare-value buffer, and of the sequence of
    HAL timer/DMA calls the driver issues.  Unsigned C integers are [Z] with
    the wrap-around written where the code increments; the two static arrays
    are lists updated by index; the external HAL calls are recorded in an
    event log, together with every store into [pwm_buffer], so that the order
    of buffer writes and hardware calls can be stated. *)

From stdpp Require Import base numbers list.

Local Open Scope Z_scope.

(** [lia] with the equations of [/] and [%] added. *)
Ltac zlia := Z.to_euclidean_division_equations; lia.

(** ** Constants of icled.h *)

Definition ICLED_LED_COUNT : Z := 105.
Definition ICLED_RESET_SLOTS : Z := 200.
Definition ICLED_BITS_PER_LED : Z := 24.
Definition ICLED_TIMING_BITS : Z := ICLED_LED_COUNT * ICLED_BITS_PER_LED.
Definition ICLED_BUFFER_SIZE : Z := ICLED_TIMING_BITS + ICLED_RESET_SLOTS.
Definition ICLED_PWM_0 : Z := 13.
Definition ICLED_PWM_1 : Z := 26.

(** Largest value of the C types used for indices and channels. *)
Definition UINT8_MAX : Z := 255.
Definition UINT16_MAX : Z := 65535.
Definition UINT32_MOD : Z := 2 ^ 32.

(** ** Data model *)

(** One row [uint8_t [3]] of [led_data]: cell 0 is G, cell 1 is R, cell 2
    is B. *)
Record led_row : Type := LedRow { cell0 : Z; cell1 : Z; cell2 : Z }.

(** [row[c]] for the column indices the code uses (0, 1, 2). *)
Definition row_get (c : Z) (p : led_row) : Z :=
  if c =? 0 then cell0 p else if c =? 1 then cell1 p else cell2 p.

(** [row[c] = v]. *)
Definition row_set (c v : Z) (p : led_row) : led_row :=
  if c =? 0 then LedRow v (cell1 p) (cell2 p)
  else if c =? 1 then LedRow (cell0 p) v (cell2 p)
  else LedRow (cell0 p) (cell1 p) v.

(** What the driver does that is visible outside the two arrays: a store
    into [pwm_buffer], and the two HAL calls (on [&htim1], [TIM_CHANNEL_1]).
    [pData] is the offset of the pointer handed to the HAL from the base of
    [pwm_buffer]. *)
Inductive event : Type :=
  | EvStore (pos val : Z)
  | EvStopDMA
  | EvStartDMA (pData Length : Z).

Global Instance event_eq_dec : EqDecision event.
Proof. solve_decision. Defined.

Global Instance led_row_eq_dec : EqDecision led_row.
Proof. solve_decision. Defined.

(** The two file-scope arrays and the log. *)
Record state : Type := State {
  led_data : list led_row;      (* static uint8_t led_data[ICLED_LED_COUNT][3] *)
  pwm_buffer : list Z;          (* static uint16_t pwm_buffer[ICLED_BUFFER_SIZE] *)
  events : list event           (* oldest first *)
}.

(** Offset of [pwm_buffer] itself. *)
Definition pwm_base : Z := 0.

(** The arrays have their declared sizes and the cells hold [uint8_t]
    values. *)
Definition row_ok (p : led_row) : Prop :=
  (0 ≤ cell0 p ≤ UINT8_MAX) ∧ (0 ≤ cell1 p ≤ UINT8_MAX) ∧ (0 ≤ cell2 p ≤ UINT8_MAX).

Definition store_sized (s : state) : Prop :=
  length (led_data s) = Z.to_nat ICLED_LED_COUNT.

Definition buffer_sized (s : state) : Prop :=
  length (pwm_buffer s) = Z.to_nat ICLED_BUFFER_SIZE.

Definition state_ok (s : state) : Prop :=
  store_sized s ∧ buffer_sized s ∧ Forall row_ok (led_data s).

(** Statics are zero-initialised at start-up. *)
Definition boot_state : state :=
  State (replicate (Z.to_nat ICLED_LED_COUNT) (LedRow 0 0 0))
        (replicate (Z.to_nat ICLED_BUFFER_SIZE) 0)
        [].

(** ** Control structure *)

(** [for (i = lo; i < hi; i++) body(i)] as a counted loop: the body is run
    for [lo], [lo + 1], ..., [hi - 1].  The loops of the driver have constant
    bounds inside the range of the counter's type and bodies that do not
    assign the counter; [for_up_steps] below runs such a loop test by test,
    with the counter wrapping as its type does, and [for_up_steps_counted]
    shows that it ends with the result of the counted loop. *)
Definition for_up {A : Type} (lo hi : Z) (body : Z → A → A) (a : A) : A :=
  foldl (λ acc i, body i acc) a (seqZ lo (hi - lo)).

(** [for (i = hi; i >= lo; i--) body(i)], likewise, for [hi], [hi - 1],
    ..., [lo]. *)
Definition for_down {A : Type} (hi lo : Z) (body : Z → A → A) (a : A) : A :=
  foldl (λ acc i, body i acc) a (reverse (seqZ lo (hi - lo + 1))).

(** The value of a signed 8-bit counter after a decrement or increment. *)
Definition int8_wrap (z : Z) : Z := (z + 128) `mod` 256 - 128.

(** The upward loop, one test of [i < hi] per unit of fuel, the counter
    unsigned with [modulus] values. *)
Fixpoint for_up_steps {A : Type} (fuel : nat) (modulus i hi : Z)
    (body : Z → A → A) (a : A) : option A :=
  match fuel with
  | O => None
  | S fuel' =>
      if i <? hi
      then for_up_steps fuel' modulus ((i + 1) `mod` modulus) hi body (body i a)
      else Some a
  end.

(** The downward loop on an [int8_t] counter, one test of [i >= lo] per
    unit of fuel. *)
Fixpoint for_down_steps {A : Type} (fuel : nat) (i lo : Z)
    (body : Z → A → A) (a : A) : option A :=
  match fuel with
  | O => None
  | S fuel' =>
      if lo <=? i
      then for_down_steps fuel' (int8_wrap (i - 1)) lo body (body i a)
      else Some a
  end.

(** ** Array accesses *)

(** [led_data[index][c]]; the code only reads inside the array, outside it
    the model answers 0. *)
Definition led_read (index c : Z) (s : state) : Z :=
  match led_data s !! Z.to_nat index with
  | Some p => row_get c p
  | None => 0
  end.

(** [led_data[index][c] = v]. *)
Definition led_write (index c v : Z) (s : state) : state :=
  State (alter (row_set c v) (Z.to_nat index) (led_data s))
        (pwm_buffer s)
        (events s).

(** [pwm_buffer[pos] = v].  The store is logged with its position; a
    position outside the array leaves the list as it is (the theorems show
    that the driver never produces one). *)
Definition pwm_write (pos v : Z) (s : state) : state :=
  State (led_data s)
        (<[Z.to_nat pos := v]> (pwm_buffer s))
        (events s ++ [EvStore pos v]).

(** [pwm_buffer[pos++] = v] with [uint32_t pos]: the local [pos] is carried
    next to the state. *)
Definition pwm_push (v : Z) (ps : Z * state) : Z * state :=
  ((ps.1 + 1) `mod` UINT32_MOD, pwm_write ps.1 v ps.2).

(** ** HAL calls (external; the model records the call) *)

Definition HAL_TIM_PWM_Stop_DMA (s : state) : state :=
  State (led_data s) (pwm_buffer s) (events s ++ [EvStopDMA]).

Definition HAL_TIM_PWM_Start_DMA (pData Length : Z) (s : state) : state :=
  State (led_data s) (pwm_buffer s) (events s ++ [EvStartDMA pData Length]).

(** ** The driver *)

(** [(val & (1 << bit)) ? ICLED_PWM_1 : ICLED_PWM_0] *)
Definition pwm_code (val bit : Z) : Z :=
  if Z.land val (Z.shiftl 1 bit) =? 0 then ICLED_PWM_0 else ICLED_PWM_1.

Definition ICLED_SetPixel (index r g b : Z) (s : state) : state :=
  if ICLED_LED_COUNT <=? index then s
  else
    let s := led_write index 0 g s in
    let s := led_write index 1 r s in
    led_write index 2 b s.

(** Lines 90-109 of [ICLED_Show]: the three nested loops and the reset
    loop.  The result is the final value of [pos] and the state. *)
Definition ICLED_Show_encode (s : state) : Z * state :=
  let ps := (0, s) in
  let ps :=
    for_up 0 ICLED_LED_COUNT (λ i ps,
      for_up 0 3 (λ c ps,
        let val := led_read i c ps.2 in
        for_down 7 0 (λ bit ps, pwm_push (pwm_code val bit) ps) ps) ps) ps in
  for_up 0 ICLED_RESET_SLOTS (λ _ ps, pwm_push 0 ps) ps.

Definition ICLED_Show (s : state) : state :=
  let ps := ICLED_Show_encode s in
  let s := HAL_TIM_PWM_Stop_DMA ps.2 in
  HAL_TIM_PWM_Start_DMA pwm_base ICLED_BUFFER_SIZE s.

Definition ICLED_Clear (s : state) : state :=
  let s := for_up 0 ICLED_LED_COUNT (λ i s, ICLED_SetPixel i 0 0 0 s) s in
  ICLED_Show s.

Definition ICLED_Init (s : state) : state :=
  let s := ICLED_Clear s in
  HAL_TIM_PWM_Start_DMA pwm_base ICLED_BUFFER_SIZE s.

(** ** Observations used in the statements *)

(** The logical colour [(r, g, b)] held for LED [index]: cell 1, cell 0,
    cell 2 of its row.  The driver has no accessor; this reads the array the
    way the comment on [led_data] lays it out. *)
Definition read_back (index : Z) (s : state) : option (Z * Z * Z) :=
  (λ p, (cell1 p, cell0 p, cell2 p)) <$> led_data s !! Z.to_nat index.

(** Byte number [c] of a logical colour in transmission order: 0 is G, 1
    is R, 2 is B. *)
Definition grb_byte (c : Z) (rgb : Z * Z * Z) : Z :=
  let '(r, g, b) := rgb in
  if c =? 0 then g else if c =? 1 then r else b.

(** The events appended to the log of [s] on the way to [s']. *)
Definition new_events (s s' : state) : list event :=
  drop (length (events s)) (events s').

Definition is_store (e : event) : bool :=
  match e with EvStore _ _ => true | _ => false end.

(** The hardware calls of a log, in order. *)
Definition hal_calls (l : list event) : list event :=
  filter (λ e, is_store e = false) l.

(** The positions stored to, in order. *)
Definition store_positions (l : list event) : list Z :=
  omap (λ e, match e with EvStore p _ => Some p | _ => None end) l.

(** ** The bit expansion as a list

    The code pattern of one byte, of one row and of a whole frame, written
    as lists; the loops of [ICLED_Show] are shown to store exactly these, one
    slot after the other. *)

Definition byte_codes (val : Z) : list Z :=
  pwm_code val <$> [7; 6; 5; 4; 3; 2; 1; 0].

Definition row_codes (p : led_row) : list Z :=
  byte_codes (cell0 p) ++ byte_codes (cell1 p) ++ byte_codes (cell2 p).

Definition data_codes (l : list led_row) : list Z :=
  concat (row_codes <$> l).

Definition frame_codes (l : list led_row) : list Z :=
  data_codes l ++ replicate (Z.to_nat ICLED_RESET_SLOTS) 0.

(** Consecutive [pwm_buffer[pos++] = v] for the values of a list. *)
Definition emit (vs : list Z) (ps : Z * state) : Z * state :=
  foldl (λ ps v, pwm_push v ps) ps vs.

(** The log entries of storing [vs] from position [pos] on. *)
Definition store_log (pos : Z) (vs : list Z) : list event :=
  imap (λ k v, EvStore (pos + Z.of_nat k) v) vs.

(** ** Decoding a frame

    The inverse of the bit expansion, written from the specification's
    description of the timing buffer and not from the driver: a slot holding [ICLED_PWM_1] is a 1
    bit, a slot holding [ICLED_PWM_0] is a 0 bit, anything else is not a
    data slot; eight slots make a byte, most significant bit first; three
    bytes make a row (G, R, B). *)

Definition decode_slot (v : Z) : option Z :=
  if v =? ICLED_PWM_1 then Some 1
  else if v =? ICLED_PWM_0 then Some 0
  else None.

Fixpoint decode_bits (acc : Z) (slots : list Z) : option Z :=
  match slots with
  | [] => Some acc
  | v :: rest =>
      match decode_slot v with
      | Some b => decode_bits (2 * acc + b) rest
      | None => None
      end
  end.

Definition decode_byte (slots : list Z) : option Z :=
  decode_bits 0 slots.

(** Decode [n] rows from the front of a buffer. *)
Fixpoint decode_rows (n : nat) (buf : list Z) : option (list led_row) :=
  match n with
  | O => Some []
  | S n' =>
      match decode_byte (take 8 buf),
            decode_byte (take 8 (drop 8 buf)),
            decode_byte (take 8 (drop 16 buf)),
            decode_rows n' (drop 24 buf) with
      | Some g, Some r, Some b, Some rows => Some (LedRow g r b :: rows)
      | _, _, _, _ => None
      end
  end.

(** The data portion of the timing buffer, decoded. *)
Definition decode_frame (buf : list Z) : option (list led_row) :=
  decode_rows (Z.to_nat ICLED_LED_COUNT) buf.

(** ** Shapes of hardware-call sequences *)

Definition is_start (e : event) : bool :=
  match e with EvStartDMA _ _ => true | _ => false end.

Definition is_stop (e : event) : bool :=
  match e with EvStopDMA => true | _ => false end.

(** A sequence of hardware calls contains a start, and nothing before its
    first start is a stop. *)
Definition first_start_unstopped (calls : list event) : Prop :=
  ∃ pre pData Length post,
    calls = pre ++ EvStartDMA pData Length :: post ∧
    Forall (λ e, is_start e = false ∧ is_stop e = false) pre.

(** The pixel store all black, the rest of the state kept. *)
Definition blackened (s : state) : state :=
  State (replicate (Z.to_nat ICLED_LED_COUNT) (LedRow 0 0 0))
        (pwm_buffer s) (events s).

(** A state reached from start-up by two calls: LED 0 red at 0x01 (the
    concrete scenario of the specification), LED 104 a mixed colour. *)
Definition demo_state : state :=
  ICLED_SetPixel 104 0xAA 0x0F 0xC3 (ICLED_SetPixel 0 0x01 0x00 0x00 boot_state).

Global Instance row_ok_dec p : Decision (row_ok p).
Proof. unfold row_ok. apply _. Defined.

(** * The example application (Examples/example_app.c)

    The animations keep their state in function-local statics; each
    function is embedded as a function on the record of its statics and on
    the [world]: the driver state, the log of [HAL_Delay] calls and the
    number of [rand()] calls made so far.  [int] arithmetic is [Z]
    arithmetic ([/] and [%] truncate: [Z.quot], [Z.rem]); a value passed as
    a parameter or stored in a variable is converted to the type of the
    parameter or variable. *)

Definition to_uint8 (z : Z) : Z := z `mod` 256.
Definition to_uint16 (z : Z) : Z := z `mod` 65536.
Definition to_int16 (z : Z) : Z := (z + 32768) `mod` 65536 - 32768.

Definition DIR_HORIZONTAL : Z := 0.
Definition DIR_VERTICAL : Z := 1.
Definition DIR_DIAGONAL_RD : Z := 2.
Definition DIR_DIAGONAL_LU : Z := 3.
Definition DIR_MODE_COUNT : Z := 4.
Definition MAX_STARS : Z := 10.

Definition EFFECT_SIMPLE : Z := 0.
Definition EFFECT_GLOW : Z := 1.
Definition EFFECT_STARFIELD : Z := 2.
Definition EFFECT_SNAKE : Z := 3.
Definition EFFECT_COUNT : Z := 4.

(** A [HAL_Delay] is logged with the number of driver events logged before
    it and its milliseconds. *)
Record world : Type := World {
  drv : state;
  delays : list (nat * Z);
  rand_used : nat
}.

Definition set_drv (s : state) (w : world) : world :=
  World s (delays w) (rand_used w).

Definition HAL_Delay (ms : Z) (w : world) : world :=
  World (drv w) (delays w ++ [(length (events (drv w)), ms)]) (rand_used w).

(** [rand()]: the library's sequence of values is the parameter [rnd]; the
    call returns the next one. *)
Definition rand (rnd : nat → Z) (w : world) : Z * world :=
  (rnd (rand_used w), World (drv w) (delays w) (S (rand_used w))).

(** ** The two Knight Rider sweeps *)

(** [static int8_t direction = 1; static int8_t col = 0;] *)
Record sweep : Type := Sweep { direction : Z; col : Z }.

Global Instance sweep_eq_dec : EqDecision sweep.
Proof. solve_decision. Defined.

Definition sweep_boot : sweep := Sweep 1 0.

(** Lines 137-147, and the same text at lines 194-204: [col += direction]
    and the reversal at the two ends. *)
Definition sweep_advance (st : sweep) : sweep :=
  let col := int8_wrap (col st + direction st) in
  if 14 <=? col then Sweep (-1) 14
  else if col <=? 0 then Sweep 1 0
  else Sweep (direction st) col.

(** Lines 118-132 of [ICLED_NightRideDemo]. *)
Definition NightRide_draw (brightness col : Z) (s : state) : state :=
  let s := for_up 0 15 (λ c s, ICLED_SetPixel (to_uint16 (c * 7 + 0)) 0 0 0 s) s in
  let s := ICLED_SetPixel (to_uint16 (col * 7 + 0))
             (to_uint8 ((brightness * 255) `quot` 100)) 0 0 s in
  let s := if 0 <? col
           then ICLED_SetPixel (to_uint16 ((col - 1) * 7 + 0))
                  (to_uint8 ((brightness * 100) `quot` 100)) 0 0 s
           else s in
  let s := if 1 <? col
           then ICLED_SetPixel (to_uint16 ((col - 2) * 7 + 0))
                  (to_uint8 ((brightness * 40) `quot` 100)) 0 0 s
           else s in
  let s := if col <? 14
           then ICLED_SetPixel (to_uint16 ((col + 1) * 7 + 0))
                  (to_uint8 ((brightness * 100) `quot` 100)) 0 0 s
           else s in
  if col <? 13
  then ICLED_SetPixel (to_uint16 ((col + 2) * 7 + 0))
         (to_uint8 ((brightness * 40) `quot` 100)) 0 0 s
  else s.

Definition ICLED_NightRideDemo (brightness delay : Z) (st : sweep) (w : world)
    : sweep * world :=
  let s := NightRide_draw brightness (col st) (drv w) in
  let s := ICLED_Show s in
  let w := HAL_Delay delay (set_drv s w) in
  (sweep_advance st, w).

(** Lines 172-190 of [ICLED_KnightRiderColorFade]. *)
Definition ColorFade_draw (brightness col : Z) (s : state) : state :=
  let s := for_up 0 15 (λ c s, ICLED_SetPixel (to_uint16 (c * 7 + 0)) 0 0 0 s) s in
  let s := if 2 <? col
           then ICLED_SetPixel (to_uint16 ((col - 3) * 7 + 0))
                  (to_uint8 ((brightness * 64) `quot` 255)) 0 0 s
           else s in
  let s := if col <? 12
           then ICLED_SetPixel (to_uint16 ((col + 3) * 7 + 0))
                  (to_uint8 ((brightness * 64) `quot` 255)) 0 0 s
           else s in
  let s := if 1 <? col
           then ICLED_SetPixel (to_uint16 ((col - 2) * 7 + 0))
                  (to_uint8 ((brightness * 150) `quot` 255))
                  (to_uint8 ((brightness * 50) `quot` 255)) 0 s
           else s in
  let s := if col <? 13
           then ICLED_SetPixel (to_uint16 ((col + 2) * 7 + 0))
                  (to_uint8 ((brightness * 150) `quot` 255))
                  (to_uint8 ((brightness * 50) `quot` 255)) 0 s
           else s in
  let s := if 0 <? col
           then ICLED_SetPixel (to_uint16 ((col - 1) * 7 + 0))
                  (to_uint8 ((brightness * 230) `quot` 255))
                  (to_uint8 ((brightness * 150) `quot` 255)) 0 s
           else s in
  let s := if col <? 14
           then ICLED_SetPixel (to_uint16 ((col + 1) * 7 + 0))
                  (to_uint8 ((brightness * 230) `quot` 255))
                  (to_uint8 ((brightness * 150) `quot` 255)) 0 s
           else s in
  ICLED_SetPixel (to_uint16 (col * 7 + 0))
    (to_uint8 ((brightness * 200) `quot` 255)) brightness 0 s.

Definition ICLED_KnightRiderColorFade (brightness delay : Z) (st : sweep)
    (w : world) : sweep * world :=
  let s := ColorFade_draw brightness (col st) (drv w) in
  let s := ICLED_Show s in
  let w := HAL_Delay delay (set_drv s w) in
  (sweep_advance st, w).

(** ** The starfield *)

Record Star : Type := MkStar { star_index : Z; star_age : Z; star_color : Z }.

(** [static Star stars[MAX_STARS] = {0}; static uint8_t init = 0;] *)
Record starfield : Type := Starfield { stars : list Star; init : Z }.

Definition starfield_boot : starfield :=
  Starfield (replicate (Z.to_nat MAX_STARS) (MkStar 0 0 0)) 0.

(** [stars[i]]; the loops stay inside the array. *)
Definition star_at (i : Z) (l : list Star) : Star :=
  default (MkStar 0 0 0) (l !! Z.to_nat i).

(** Body of the loop at lines 238-246.  [rand()] is called for the test
    only when the star is dead, and three more times when the test
    succeeds. *)
Definition star_spawn (rnd : nat → Z) (i : Z) (acc : list Star * world)
    : list Star * world :=
  let l := acc.1 in
  let w := acc.2 in
  if star_age (star_at i l) =? 0 then
    let r1 := rand rnd w in
    if r1.1 `rem` 100 <? 15 then
      let r2 := rand rnd r1.2 in
      let index := to_uint16 (r2.1 `rem` ICLED_LED_COUNT) in
      let r3 := rand rnd r2.2 in
      let age := to_uint8 (4 + r3.1 `rem` 5) in
      let r4 := rand rnd r3.2 in
      let color := to_uint8 (r4.1 `rem` 2) in
      (<[Z.to_nat i := MkStar index age color]> l, r4.2)
    else (l, r1.2)
  else (l, w).

(** Body of the loop at lines 248-267. *)
Definition star_render (brightness : Z) (i : Z) (acc : list Star * state)
    : list Star * state :=
  let l := acc.1 in
  let s := acc.2 in
  let star := star_at i l in
  if 0 <? star_age star then
    let s :=
      if star_color star =? 0
      then ICLED_SetPixel (star_index star) brightness brightness brightness s
      else ICLED_SetPixel (star_index star) brightness brightness 0 s in
    let age := to_uint8 (star_age star - 1) in
    let l := <[Z.to_nat i := MkStar (star_index star) age (star_color star)]> l in
    let s :=
      if age =? 0
      then ICLED_SetPixel (star_index star) 0
             (to_uint8 (brightness `quot` 2)) brightness s
      else s in
    (l, s)
  else (l, s).

(** Lines 230-236: the background, painted and shown in the first call. *)
Definition Starfield_first (brightness : Z) (st : starfield) (w : world) : state :=
  if init st =? 0
  then
    let s := for_up 0 ICLED_LED_COUNT (λ i s,
               ICLED_SetPixel i 0 (to_uint8 (brightness `quot` 2)) brightness s)
               (drv w) in
    ICLED_Show s
  else drv w.

Definition ICLED_StarfieldEffect (rnd : nat → Z) (brightness delay : Z)
    (st : starfield) (w : world) : starfield * world :=
  let first := init st =? 0 in
  let s := drv w in
  let s :=
    if first
    then
      let s := for_up 0 ICLED_LED_COUNT (λ i s,
                 ICLED_SetPixel i 0 (to_uint8 (brightness `quot` 2)) brightness s) s in
      ICLED_Show s
    else s in
  let init := if first then 1 else init st in
  let lw := for_up 0 MAX_STARS (star_spawn rnd) (stars st, set_drv s w) in
  let ls := for_up 0 MAX_STARS (star_render brightness) (lw.1, drv lw.2) in
  let s := ICLED_Show ls.2 in
  let w := HAL_Delay delay (set_drv s lw.2) in
  (Starfield ls.1 init, w).

(** [n] consecutive calls of [ICLED_StarfieldEffect] with the same
    arguments, as the main loop makes them while the mode stays
    [EFFECT_STARFIELD]: the statics and the world of one call are those the
    next call starts from. *)
Fixpoint Starfield_calls (rnd : nat → Z) (brightness delay : Z) (n : nat)
    (st : starfield) (w : world) : starfield * world :=
  match n with
  | O => (st, w)
  | S n =>
      let p := ICLED_StarfieldEffect rnd brightness delay st w in
      Starfield_calls rnd brightness delay n p.1 p.2
  end.

(** ** The snake *)

(** The statics of [ICLED_SnakePattern]. *)
Record snake : Type := Snake {
  tick : Z;           (* uint16_t *)
  headIndex : Z;      (* uint16_t *)
  snakeLength : Z;    (* uint8_t *)
  growing : Z;        (* uint8_t *)
  mode : Z            (* uint8_t *)
}.

Definition snake_boot : snake := Snake 0 0 8 1 DIR_HORIZONTAL.

Definition snake_rows : Z := 7.
Definition snake_cols : Z := 15.
Definition snake_total : Z := to_uint16 (snake_rows * snake_cols).

(** The [switch] at lines 316-331: [uint8_t index = 0], assigned in the
    four cases. *)
Definition snake_index (mode step : Z) : Z :=
  if mode =? DIR_HORIZONTAL
  then to_uint8 (((step `rem` snake_cols) * snake_rows) + (step `quot` snake_cols))
  else if mode =? DIR_VERTICAL
  then to_uint8 ((step `quot` snake_rows) * snake_rows + (step `rem` snake_rows))
  else if mode =? DIR_DIAGONAL_RD
  then to_uint8 ((step `rem` snake_cols) * snake_rows + (step `rem` snake_rows))
  else if mode =? DIR_DIAGONAL_LU
  then to_uint8 ((snake_cols - 1 - (step `rem` snake_cols)) * snake_rows
                 + (snake_rows - 1 - (step `rem` snake_rows)))
  else 0.

(** [uint8_t level = brightness - (s * (brightness / snakeLength))] *)
Definition snake_level (brightness snakeLength s : Z) : Z :=
  to_uint8 (brightness - (s * (brightness `quot` snakeLength))).

(** Body of the loop at lines 311-335. *)
Definition snake_segment (brightness : Z) (st : snake) (s : Z) (acc : state)
    : state :=
  let step := to_int16 (headIndex st - s) in
  if (step <? 0) || (snake_total <=? step) then acc
  else
    ICLED_SetPixel (snake_index (mode st) step) 0
      (snake_level brightness (snakeLength st) s) 0 acc.

(** Lines 306-335. *)
Definition snake_draw (brightness : Z) (st : snake) (s : state) : state :=
  let s := for_up 0 snake_total (λ i s, ICLED_SetPixel i 0 0 0 s) s in
  for_up 0 (snakeLength st) (snake_segment brightness st) s.

(** Lines 340-366. *)
Definition snake_advance (st : snake) : snake :=
  let st := Snake (to_uint16 (tick st + 1)) (to_uint16 (headIndex st + 1))
                  (snakeLength st) (growing st) (mode st) in
  let st :=
    if tick st `rem` 160 =? 0
    then Snake (tick st) 0 (snakeLength st) (growing st)
               (to_uint8 ((mode st + 1) `rem` DIR_MODE_COUNT))
    else st in
  let st :=
    if tick st `rem` 25 =? 0 then
      if negb (growing st =? 0) then
        let st := Snake (tick st) (headIndex st)
                        (to_uint8 (snakeLength st + 1)) (growing st) (mode st) in
        if 15 <? snakeLength st
        then Snake (tick st) (headIndex st) (snakeLength st) 0 (mode st)
        else st
      else
        if 4 <? snakeLength st
        then Snake (tick st) (headIndex st)
                   (to_uint8 (snakeLength st - 1)) (growing st) (mode st)
        else Snake (tick st) (headIndex st) (snakeLength st) 1 (mode st)
    else st in
  if snake_total + snakeLength st <? headIndex st
  then Snake (tick st) 0 (snakeLength st) (growing st) (mode st)
  else st.

Definition ICLED_SnakePattern (brightness delay : Z) (st : snake) (w : world)
    : snake * world :=
  let s := snake_draw brightness st (drv w) in
  let s := ICLED_Show s in
  let w := HAL_Delay delay (set_drv s w) in
  (snake_advance st, w).

(** ** Mode selection and the main-loop step *)

Record application : Type := App {
  app_world : world;
  effectMode : Z;          (* volatile ICLED_EffectMode effectMode *)
  night : sweep;           (* statics of ICLED_NightRideDemo *)
  fade : sweep;            (* statics of ICLED_KnightRiderColorFade *)
  sky : starfield;         (* statics of ICLED_StarfieldEffect *)
  serpent : snake          (* statics of ICLED_SnakePattern *)
}.

Definition app_boot : application :=
  App (World boot_state [] 0) EFFECT_SIMPLE
      sweep_boot sweep_boot starfield_boot snake_boot.

(** [S2_Pin] comes from main.h and is a parameter here. *)
Definition HAL_GPIO_EXTI_Callback (S2_Pin GPIO_Pin : Z) (a : application) : application :=
  if GPIO_Pin =? S2_Pin then
    let m := effectMode a + 1 in
    let m := if EFFECT_COUNT <=? m then 0 else m in
    App (app_world a) m (night a) (fade a) (sky a) (serpent a)
  else a.

Definition example_app_run (rnd : nat → Z) (a : application) : application :=
  if effectMode a =? EFFECT_SIMPLE then
    let r := ICLED_NightRideDemo 40 80 (night a) (app_world a) in
    App r.2 (effectMode a) r.1 (fade a) (sky a) (serpent a)
  else if effectMode a =? EFFECT_GLOW then
    let r := ICLED_KnightRiderColorFade 40 100 (fade a) (app_world a) in
    App r.2 (effectMode a) (night a) r.1 (sky a) (serpent a)
  else if effectMode a =? EFFECT_STARFIELD then
    let r := ICLED_StarfieldEffect rnd 20 100 (sky a) (app_world a) in
    App r.2 (effectMode a) (night a) (fade a) r.1 (serpent a)
  else if effectMode a =? EFFECT_SNAKE then
    let r := ICLED_SnakePattern 40 60 (serpent a) (app_world a) in
    App r.2 (effectMode a) (night a) (fade a) (sky a) r.1
  else
    let w := set_drv (ICLED_Clear (drv (app_world a))) (app_world a) in
    let w := HAL_Delay 100 w in
    App w (effectMode a) (night a) (fade a) (sky a) (serpent a).

(** The [default:] branch of [example_app_run] (lines 401-404) taken by
    itself: what the run would do if no [case] matched. *)
Definition example_app_fallback (a : application) : application :=
  let w := set_drv (ICLED_Clear (drv (app_world a))) (app_world a) in
  let w := HAL_Delay 100 w in
  App w (effectMode a) (night a) (fade a) (sky a) (serpent a).

(** ** Invariants of the statics *)

(** The sweep is on its way right in columns 0..13 or on its way left in
    columns 1..14. *)
Definition sweep_ok (st : sweep) : Prop :=
  (direction st = 1 ∧ 0 ≤ col st ≤ 13) ∨ (direction st = -1 ∧ 1 ≤ col st ≤ 14).

Definition star_ok (x : Star) : Prop :=
  0 ≤ star_index x < ICLED_LED_COUNT ∧ 0 ≤ star_age x ≤ 8 ∧
  (star_color x = 0 ∨ star_color x = 1).

Definition starfield_ok (st : starfield) : Prop :=
  length (stars st) = Z.to_nat MAX_STARS ∧ Forall star_ok (stars st) ∧
  (init st = 0 ∨ init st = 1).

Definition snake_ok (st : snake) : Prop :=
  0 ≤ tick st ≤ UINT16_MAX ∧
  0 ≤ headIndex st ≤ snake_total + 16 ∧
  4 ≤ snakeLength st ≤ 16 ∧
  (growing st = 0 ∨ growing st = 1 ∧ snakeLength st ≤ 15) ∧
  0 ≤ mode st < DIR_MODE_COUNT.

(** The three colours of the starfield for a brightness: background, white
    star, yellow star, as (r, g, b). *)
Definition star_palette (brightness : Z) (rgb : Z * Z * Z) : Prop :=
  rgb = (0, to_uint8 (brightness `quot` 2), brightness) ∨
  rgb = (brightness, brightness, brightness) ∨
  rgb = (brightness, brightness, 0).

(** Every LED shows one of the three colours. *)
Definition all_in_palette (brightness : Z) (s : state) : Prop :=
  ∀ j, 0 ≤ j < ICLED_LED_COUNT →
       ∃ rgb, read_back j s = Some rgb ∧ star_palette brightness rgb.

(** [s'] is well formed and differs from [s] in the pixel store at most. *)
Definition painted (s s' : state) : Prop :=
  state_ok s' ∧ events s' = events s ∧ pwm_buffer s' = pwm_buffer s.

(** What one [ICLED_Show] appends to the log. *)
Definition show_log (s : state) : list event :=
  store_log 0 (frame_codes (led_data s))
    ++ [EvStopDMA; EvStartDMA pwm_base ICLED_BUFFER_SIZE].

(** The delay [example_app_run] passes to the effect of a mode. *)
Definition frame_delay (m : Z) : Z :=
  if m =? EFFECT_SIMPLE then 80
  else if m =? EFFECT_GLOW then 100
  else if m =? EFFECT_STARFIELD then 100
  else if m =? EFFECT_SNAKE then 60
  else 100.

Definition app_ok (a : application) : Prop :=
  state_ok (drv (app_world a)) ∧
  0 ≤ effectMode a < EFFECT_COUNT ∧
  sweep_ok (night a) ∧ sweep_ok (fade a) ∧
  starfield_ok (sky a) ∧ snake_ok (serpent a).

(** What happens to the application: the main loop runs [example_app_run]
    once more, or the interrupt callback runs for a pin.  The callback only
    writes [effectMode], which [example_app_run] reads once, at its start. *)
Inductive input : Type :=
  | Frame
  | Interrupt (GPIO_Pin : Z).

Definition app_step (rnd : nat → Z) (S2_Pin : Z) (a : application) (i : input)
    : application :=
  match i with
  | Frame => example_app_run rnd a
  | Interrupt pin => HAL_GPIO_EXTI_Callback S2_Pin pin a
  end.

(** ** Concrete inputs *)

(** [demo_state] with another buffer content and an empty log. *)
Definition stale_demo_state : state :=
  State (led_data demo_state) (replicate (Z.to_nat ICLED_BUFFER_SIZE) 99) [].

Definition demo_world : world := World demo_state [] 0.

(** A [rand()] that counts up. *)
Definition demo_rnd (n : nat) : Z := Z.of_nat n.

(** A painted sky with one live yellow star on LED 5. *)
Definition demo_sky : starfield :=
  Starfield (<[0%nat := MkStar 5 3 1]> (stars starfield_boot)) 1.

(** The snake 96 frames before [tick] wraps. *)
Definition late_snake : snake := Snake 65440 0 8 1 DIR_HORIZONTAL.

(** The application after one press of the button at boot: the mode is
    [EFFECT_GLOW]. *)
Definition glow_app : application := HAL_GPIO_EXTI_Callback 13 13 app_boot.

(** * Lemmas *)

(** ** Counted loops and loops run test by test *)

Section Stepwise.

Context {A : Type}.

Lemma for_up_steps_counted (body : Z → A → A) modulus hi : ∀ n fuel lo a,
  Z.to_nat (hi - lo) = n →
  0 ≤ lo ≤ hi → hi < modulus →
  (n < fuel)%nat →
  for_up_steps fuel modulus lo hi body a = Some (for_up lo hi body a).
Proof.
  induction n as [|n IH]; intros fuel lo a Hn Hlo Hhi Hfuel;
    (destruct fuel as [|fuel]; [lia|]); cbn [for_up_steps].
  - assert (lo = hi) as -> by lia.
    rewrite Z.ltb_irrefl. unfold for_up. by rewrite seqZ_nil by lia.
  - rewrite (proj2 (Z.ltb_lt lo hi)) by lia.
    rewrite Z.mod_small by lia.
    rewrite IH by lia.
    unfold for_up. rewrite (seqZ_cons lo) by lia. cbn [foldl].
    f_equal. f_equal. f_equal; lia.
Qed.

Lemma for_down_steps_counted (body : Z → A → A) lo : ∀ n fuel hi a,
  Z.to_nat (hi - lo + 1) = n →
  -128 ≤ lo - 1 → lo - 1 ≤ hi ≤ 127 →
  (n < fuel)%nat →
  for_down_steps fuel hi lo body a = Some (for_down hi lo body a).
Proof.
  induction n as [|n IH]; intros fuel hi a Hn Hlo Hhi Hfuel;
    (destruct fuel as [|fuel]; [lia|]); cbn [for_down_steps].
  - assert (hi = lo - 1) as -> by lia.
    rewrite (proj2 (Z.leb_gt _ _)) by lia.
    unfold for_down. by rewrite seqZ_nil by lia.
  - rewrite (proj2 (Z.leb_le lo hi)) by lia.
    assert (int8_wrap (hi - 1) = hi - 1) as ->.
    { unfold int8_wrap. rewrite Z.mod_small by lia. lia. }
    rewrite IH by lia.
    unfold for_down.
    replace (hi - lo + 1) with (Z.of_nat (S (Z.to_nat (hi - lo)))) by lia.
    rewrite seqZ_S, reverse_snoc. cbn [foldl].
    replace (lo + Z.of_nat (Z.to_nat (hi - lo))) with hi by lia.
    f_equal. f_equal. f_equal. f_equal. lia.
Qed.

(** The four loop shapes of the driver: [uint16_t i] up to
    [ICLED_LED_COUNT], [uint8_t c] up to 3, [int8_t bit] from 7 down to 0,
    [uint32_t i] up to [ICLED_RESET_SLOTS].  Each ends, after one more test
    than it has iterations, with the result of the counted loop. *)
Lemma driver_loops_counted (body : Z → A → A) (a : A) :
  for_up_steps 106 (2 ^ 16) 0 ICLED_LED_COUNT body a
    = Some (for_up 0 ICLED_LED_COUNT body a) ∧
  for_up_steps 4 (2 ^ 8) 0 3 body a = Some (for_up 0 3 body a) ∧
  for_down_steps 9 7 0 body a = Some (for_down 7 0 body a) ∧
  for_up_steps 201 UINT32_MOD 0 ICLED_RESET_SLOTS body a
    = Some (for_up 0 ICLED_RESET_SLOTS body a).
Proof.
  unfold ICLED_LED_COUNT, ICLED_RESET_SLOTS, UINT32_MOD.
  split_and!.
  - apply (for_up_steps_counted _ _ _ 105); [reflexivity|lia..].
  - apply (for_up_steps_counted _ _ _ 3); [reflexivity|lia..].
  - apply (for_down_steps_counted _ _ 8); [reflexivity|lia..].
  - apply (for_up_steps_counted _ _ _ 200); [reflexivity|lia..].
Qed.

End Stepwise.

Section Emit.

Lemma emit_nil ps : emit [] ps = ps.
Proof. reflexivity. Qed.

Lemma emit_cons v vs ps : emit (v :: vs) ps = emit vs (pwm_push v ps).
Proof. reflexivity. Qed.

Lemma emit_app vs ws ps : emit (vs ++ ws) ps = emit ws (emit vs ps).
Proof. unfold emit. apply foldl_app. Qed.

Lemma emit_led_data vs ps : led_data (emit vs ps).2 = led_data ps.2.
Proof.
  revert ps. induction vs as [|v vs IH]; intros ps; [done|].
  rewrite emit_cons, IH. reflexivity.
Qed.

Lemma store_log_cons pos v vs :
  store_log pos (v :: vs) = EvStore pos v :: store_log (pos + 1) vs.
Proof.
  unfold store_log. cbn [imap]. rewrite Z.add_0_r. f_equal.
  apply imap_ext. intros k x _. cbn. f_equal. lia.
Qed.

(** Storing a list of values at consecutive positions inside the array
    replaces exactly that segment, advances [pos] by the length without
    wrapping, and logs one store per position. *)
Lemma emit_spec vs pos s :
  0 ≤ pos →
  pos + Z.of_nat (length vs) ≤ Z.of_nat (length (pwm_buffer s)) →
  Z.of_nat (length (pwm_buffer s)) < UINT32_MOD →
  emit vs (pos, s) =
    (pos + Z.of_nat (length vs),
     State (led_data s)
           (take (Z.to_nat pos) (pwm_buffer s) ++ vs
              ++ drop (Z.to_nat pos + length vs) (pwm_buffer s))
           (events s ++ store_log pos vs)).
Proof.
  revert pos s. induction vs as [|v vs IH]; intros pos s Hpos Hfit Hmax.
  - rewrite emit_nil. cbn. rewrite Z.add_0_r, Nat.add_0_r, take_drop, app_nil_r.
    by destruct s.
  - rewrite emit_cons. unfold pwm_push. cbn [fst snd].
    cbn [length] in Hfit.
    rewrite Z.mod_small by lia.
    rewrite IH; cbn [pwm_write pwm_buffer led_data events];
      rewrite ?length_insert; [|lia..].
    f_equal; [cbn [length]; lia|].
    f_equal.
    + replace (Z.to_nat (pos + 1)) with (S (Z.to_nat pos)) by lia.
      rewrite drop_insert_lt by lia.
      rewrite (take_S_r _ _ v).
      2:{ apply list_lookup_insert_eq. lia. }
      rewrite take_insert_ge by lia.
      rewrite <- !app_assoc. cbn [app length]. do 3 f_equal. f_equal. lia.
    + rewrite store_log_cons, <- app_assoc. reflexivity.
Qed.

End Emit.

(** ** The loops of [ICLED_Show] store the frame *)

Section Loops.

(** The bit loop stores the eight codes of [val], bit 7 first. *)
Lemma bit_loop_emit val ps :
  for_down 7 0 (λ bit ps, pwm_push (pwm_code val bit) ps) ps
  = emit (byte_codes val) ps.
Proof.
  unfold for_down, emit, byte_codes. rewrite foldl_fmap. reflexivity.
Qed.

(** The loop over the three cells of row [i] stores the codes of the row,
    cell 0 first. *)
Lemma cell_loop_emit i p ps :
  led_data ps.2 !! Z.to_nat i = Some p →
  for_up 0 3 (λ c ps,
    let val := led_read i c ps.2 in
    for_down 7 0 (λ bit ps, pwm_push (pwm_code val bit) ps) ps) ps
  = emit (row_codes p) ps.
Proof.
  intros Hp. unfold for_up, row_codes.
  change (seqZ 0 (3 - 0)) with [0; 1; 2]. cbn [foldl].
  rewrite !emit_app, !bit_loop_emit.
  unfold led_read. rewrite !emit_led_data, Hp. reflexivity.
Qed.

(** The loop over the rows, from row [length past] on. *)
Lemma row_loop_emit todo : ∀ past ps,
  led_data ps.2 = past ++ todo →
  foldl (λ ps i,
    for_up 0 3 (λ c ps,
      let val := led_read i c ps.2 in
      for_down 7 0 (λ bit ps, pwm_push (pwm_code val bit) ps) ps) ps)
    ps (seqZ (Z.of_nat (length past)) (Z.of_nat (length todo)))
  = emit (data_codes todo) ps.
Proof.
  induction todo as [|p todo IH]; intros past ps Hl; [done|].
  rewrite seqZ_cons by (cbn [length]; lia). cbn [foldl].
  rewrite (cell_loop_emit _ p).
  2:{ rewrite Hl, Nat2Z.id. by apply list_lookup_middle. }
  replace (Z.succ (Z.of_nat (length past)))
    with (Z.of_nat (length (past ++ [p]))) by (rewrite length_app; cbn; lia).
  replace (Z.pred (Z.of_nat (length (p :: todo))))
    with (Z.of_nat (length todo)) by (cbn [length]; lia).
  rewrite IH.
  - unfold data_codes. cbn [fmap list_fmap concat]. by rewrite emit_app.
  - rewrite emit_led_data, Hl, <- app_assoc. reflexivity.
Qed.

(** The reset loop stores zeros. *)
Lemma reset_loop_emit (idx : list Z) : ∀ ps,
  foldl (λ ps (_ : Z), pwm_push 0 ps) ps idx
  = emit (replicate (length idx) 0) ps.
Proof.
  induction idx as [|i idx IH]; intros ps; [done|].
  cbn [foldl length replicate]. rewrite emit_cons. apply IH.
Qed.

Lemma length_byte_codes v : length (byte_codes v) = 8%nat.
Proof. reflexivity. Qed.

Lemma length_row_codes p : length (row_codes p) = 24%nat.
Proof. reflexivity. Qed.

Lemma length_data_codes l : length (data_codes l) = (24 * length l)%nat.
Proof.
  induction l as [|p l IH]; [done|].
  unfold data_codes in *. cbn [fmap list_fmap concat].
  rewrite length_app, length_row_codes, IH. cbn [length]. lia.
Qed.

Lemma length_frame_codes l :
  length (frame_codes l) = (24 * length l + Z.to_nat ICLED_RESET_SLOTS)%nat.
Proof.
  unfold frame_codes. by rewrite length_app, length_data_codes, length_replicate.
Qed.

Lemma reset_for_emit n ps :
  for_up 0 n (λ _ ps, pwm_push 0 ps) ps = emit (replicate (Z.to_nat n) 0) ps.
Proof.
  unfold for_up. by rewrite reset_loop_emit, length_seqZ, Z.sub_0_r.
Qed.

Lemma rows_for_emit n ps :
  0 ≤ n → length (led_data ps.2) = Z.to_nat n →
  for_up 0 n (λ i ps,
    for_up 0 3 (λ c ps,
      let val := led_read i c ps.2 in
      for_down 7 0 (λ bit ps, pwm_push (pwm_code val bit) ps) ps) ps) ps
  = emit (data_codes (led_data ps.2)) ps.
Proof.
  intros Hn Hlen. unfold for_up at 1.
  pose proof (row_loop_emit (led_data ps.2) [] ps eq_refl) as H.
  cbn [length] in H. rewrite Hlen, Z2Nat.id in H by done.
  rewrite Z.sub_0_r. exact H.
Qed.

(** The encode step of [ICLED_Show] is the consecutive store of the frame
    from position 0. *)
Lemma encode_emit s :
  store_sized s →
  ICLED_Show_encode s = emit (frame_codes (led_data s)) (0, s).
Proof.
  intros Hn. unfold ICLED_Show_encode, frame_codes. cbv zeta.
  rewrite emit_app, reset_for_emit, rows_for_emit; done.
Qed.

(** What the encode step leaves behind: [pos] at the end of the buffer, the
    buffer holding the frame, one logged store per slot in ascending order,
    the pixel store as it was. *)
Lemma encode_result s :
  store_sized s → buffer_sized s →
  ICLED_Show_encode s =
    (ICLED_BUFFER_SIZE,
     State (led_data s) (frame_codes (led_data s))
           (events s ++ store_log 0 (frame_codes (led_data s)))).
Proof.
  intros Hn Hb. rewrite encode_emit by done.
  pose proof (length_frame_codes (led_data s)) as Hlen.
  rewrite Hn in Hlen.
  assert (length (frame_codes (led_data s)) = Z.to_nat ICLED_BUFFER_SIZE) as Hlen'
    by (rewrite Hlen; reflexivity).
  rewrite emit_spec; [|done|rewrite Hb, Hlen'; done|rewrite Hb; done].
  cbn [led_data pwm_buffer events].
  change (Z.to_nat 0) with 0%nat.
  rewrite take_0, Nat.add_0_l, drop_ge, app_nil_r by (rewrite Hb, Hlen'; lia).
  rewrite Hlen'. reflexivity.
Qed.

(** What [ICLED_Show] leaves behind. *)
Lemma show_result s :
  store_sized s → buffer_sized s →
  ICLED_Show s =
    State (led_data s) (frame_codes (led_data s))
          (events s ++ store_log 0 (frame_codes (led_data s))
             ++ [EvStopDMA; EvStartDMA pwm_base ICLED_BUFFER_SIZE]).
Proof.
  intros Hn Hb. unfold ICLED_Show. rewrite encode_result by done.
  unfold HAL_TIM_PWM_Start_DMA, HAL_TIM_PWM_Stop_DMA.
  cbn [snd led_data pwm_buffer events]. by rewrite <- !app_assoc.
Qed.

End Loops.

(** ** Reading the frame by slot *)

Section Slots.

(** The test [(val & (1 << bit))] is the test of bit [bit] of [val]. *)
Lemma land_shiftl_1_testbit v b :
  0 ≤ b → (Z.land v (Z.shiftl 1 b) =? 0) = negb (Z.testbit v b).
Proof.
  intros Hb. destruct (Z.testbit v b) eqn:Hv; cbn [negb].
  - apply Z.eqb_neq. intros H0.
    assert (Z.testbit (Z.land v (Z.shiftl 1 b)) b = true) as Ht.
    { rewrite Z.land_spec, Hv, Z.shiftl_spec, Z.sub_diag by done. reflexivity. }
    rewrite H0, Z.bits_0 in Ht. discriminate.
  - apply Z.eqb_eq, Z.bits_inj'. intros n Hn.
    rewrite Z.bits_0, Z.land_spec, Z.shiftl_spec by done.
    destruct (decide (n = b)) as [->|Hne]; [by rewrite Hv|].
    apply andb_false_iff. right.
    destruct (decide (n < b)).
    + apply Z.testbit_neg_r. lia.
    + apply Z.bits_above_log2; [lia|]. change (Z.log2 1) with 0. lia.
Qed.

Lemma pwm_code_testbit v b :
  0 ≤ b →
  pwm_code v b = if Z.testbit v b then ICLED_PWM_1 else ICLED_PWM_0.
Proof.
  intros Hb. unfold pwm_code. rewrite land_shiftl_1_testbit by done.
  by destruct (Z.testbit v b).
Qed.

(** Bit [b] of a byte sits in slot [7 - b] of its group of eight. *)
Lemma lookup_byte_codes v b :
  0 ≤ b ≤ 7 → byte_codes v !! Z.to_nat (7 - b) = Some (pwm_code v b).
Proof.
  intros Hb.
  assert (b = 0 ∨ b = 1 ∨ b = 2 ∨ b = 3 ∨ b = 4 ∨ b = 5 ∨ b = 6 ∨ b = 7)
    as Hcases by lia.
  destruct_or!; subst b; reflexivity.
Qed.

(** Cell [c] of a row occupies slots [8c .. 8c+7] of its group of 24. *)
Lemma lookup_row_codes p c j :
  0 ≤ c < 3 → (j < 8)%nat →
  row_codes p !! (Z.to_nat c * 8 + j)%nat = byte_codes (row_get c p) !! j.
Proof.
  intros Hc Hj. unfold row_codes.
  assert (c = 0 ∨ c = 1 ∨ c = 2) as Hcases by lia.
  destruct_or!; subst c; unfold row_get; cbn [Z.eqb Z.to_nat Pos.to_nat Pos.iter_op Nat.add Nat.mul].
  - rewrite lookup_app_l by (rewrite length_byte_codes; lia). reflexivity.
  - rewrite lookup_app_r by (rewrite length_byte_codes; lia).
    rewrite lookup_app_l by (rewrite !length_byte_codes; lia).
    rewrite length_byte_codes. f_equal. lia.
  - rewrite lookup_app_r by (rewrite length_byte_codes; lia).
    rewrite lookup_app_r by (rewrite !length_byte_codes; lia).
    rewrite !length_byte_codes. f_equal. lia.
Qed.

(** Row [i] occupies slots [24i .. 24i+23] of the data portion. *)
Lemma lookup_data_codes l : ∀ i p j,
  l !! i = Some p → (j < 24)%nat →
  data_codes l !! (i * 24 + j)%nat = row_codes p !! j.
Proof.
  induction l as [|q l IH]; intros i p j Hp Hj; [done|].
  unfold data_codes. cbn [fmap list_fmap concat].
  destruct i as [|i]; cbn in Hp.
  - inversion Hp; subst q.
    rewrite lookup_app_l by (rewrite length_row_codes; lia). reflexivity.
  - rewrite lookup_app_r by (rewrite length_row_codes; lia).
    rewrite length_row_codes.
    replace (S i * 24 + j - 24)%nat with (i * 24 + j)%nat by lia.
    by apply IH.
Qed.

(** Slot [24i + 8c + (7 - b)] of the frame holds the code of bit [b] of
    cell [c] of row [i]. *)
Lemma lookup_frame_data l i c b p :
  l !! Z.to_nat i = Some p → 0 ≤ i → 0 ≤ c < 3 → 0 ≤ b ≤ 7 →
  frame_codes l !! Z.to_nat (i * 24 + c * 8 + (7 - b))
  = Some (pwm_code (row_get c p) b).
Proof.
  intros Hp Hi Hc Hb. unfold frame_codes.
  assert (Z.to_nat i < length l)%nat as Hil by (by eapply lookup_lt_Some).
  rewrite lookup_app_l by (rewrite length_data_codes; lia).
  replace (Z.to_nat (i * 24 + c * 8 + (7 - b)))
    with (Z.to_nat i * 24 + (Z.to_nat c * 8 + Z.to_nat (7 - b)))%nat by lia.
  rewrite (lookup_data_codes l _ p) by (done || lia).
  rewrite lookup_row_codes by lia.
  by apply lookup_byte_codes.
Qed.

(** The slots after the data portion hold 0. *)
Lemma lookup_frame_reset l k :
  (24 * length l ≤ k < 24 * length l + Z.to_nat ICLED_RESET_SLOTS)%nat →
  frame_codes l !! k = Some 0.
Proof.
  intros Hk. unfold frame_codes.
  rewrite lookup_app_r by (rewrite length_data_codes; lia).
  apply lookup_replicate_2. rewrite length_data_codes. lia.
Qed.

End Slots.

(** ** The event log *)

Section Log.

Lemma new_events_app s s' l :
  events s' = events s ++ l → new_events s s' = l.
Proof. intros H. unfold new_events. rewrite H. apply drop_app_length. Qed.

Lemma store_log_lookup pos vs k v :
  vs !! k = Some v →
  store_log pos vs !! k = Some (EvStore (pos + Z.of_nat k) v).
Proof. intros Hv. unfold store_log. by rewrite list_lookup_imap, Hv. Qed.

Lemma length_store_log pos vs : length (store_log pos vs) = length vs.
Proof. apply length_imap. Qed.

Lemma store_log_positions vs : ∀ pos,
  store_positions (store_log pos vs) = seqZ pos (Z.of_nat (length vs)).
Proof.
  induction vs as [|v vs IH]; intros pos; [done|].
  rewrite store_log_cons. cbn [length].
  rewrite seqZ_cons by lia. unfold store_positions in *. cbn [omap list_omap].
  f_equal. rewrite IH. f_equal; lia.
Qed.

Lemma store_log_no_hal vs : ∀ pos, hal_calls (store_log pos vs) = [].
Proof.
  induction vs as [|v vs IH]; intros pos; [done|].
  rewrite store_log_cons. unfold hal_calls in *.
  rewrite filter_cons_False by (cbn; done). apply IH.
Qed.

Lemma store_log_all_stores vs pos : Forall (λ e, is_store e = true) (store_log pos vs).
Proof.
  revert pos. induction vs as [|v vs IH]; intros pos; [constructor|].
  rewrite store_log_cons. constructor; [done|apply IH].
Qed.

End Log.

(** ** The pixel store *)

Section Store.

(** An invariant of the accumulator survives a fold. *)
Lemma foldl_preserves {A B : Type} (P : A → Prop) (f : A → B → A) l : ∀ a,
  P a → (∀ a b, P a → P (f a b)) → P (foldl f a l).
Proof.
  induction l as [|b l IH]; intros a Ha Hf; [done|].
  cbn [foldl]. apply IH; auto.
Qed.

Lemma SetPixel_out_of_range index r g b s :
  ICLED_LED_COUNT ≤ index → ICLED_SetPixel index r g b s = s.
Proof.
  intros Hi. unfold ICLED_SetPixel.
  by rewrite (proj2 (Z.leb_le _ _) Hi).
Qed.

(** Inside the range the three cell writes rewrite one row. *)
Lemma SetPixel_in_range index r g b s :
  index < ICLED_LED_COUNT →
  ICLED_SetPixel index r g b s =
    State (alter (λ _, LedRow g r b) (Z.to_nat index) (led_data s))
          (pwm_buffer s) (events s).
Proof.
  intros Hi. unfold ICLED_SetPixel.
  rewrite (proj2 (Z.leb_gt _ _) Hi). unfold led_write. cbn [led_data pwm_buffer events].
  f_equal. rewrite !list_alter_alter_eq. apply list_alter_ext; [|done].
  intros p _. reflexivity.
Qed.

Lemma SetPixel_led_data_lookup index r g b s j :
  index < ICLED_LED_COUNT →
  led_data (ICLED_SetPixel index r g b s) !! j =
    if decide (Z.to_nat index = j)
    then (λ _, LedRow g r b) <$> led_data s !! j
    else led_data s !! j.
Proof.
  intros Hi. rewrite SetPixel_in_range by done. cbn [led_data].
  case_decide as Hj.
  - subst j. apply list_lookup_alter_eq.
  - by apply list_lookup_alter_ne.
Qed.

(** The loop of [ICLED_Clear], from row [length past] on. *)
Lemma clear_loop todo : ∀ past s,
  led_data s = past ++ todo →
  Z.of_nat (length past + length todo) ≤ ICLED_LED_COUNT →
  foldl (λ s i, ICLED_SetPixel i 0 0 0 s) s
        (seqZ (Z.of_nat (length past)) (Z.of_nat (length todo)))
  = State (past ++ replicate (length todo) (LedRow 0 0 0))
          (pwm_buffer s) (events s).
Proof.
  induction todo as [|p todo IH]; intros past s Hl Hn.
  - cbn. rewrite app_nil_r in *. rewrite <- Hl. by destruct s.
  - cbn [length] in Hn.
    rewrite seqZ_cons by (cbn [length]; lia). cbn [foldl].
    rewrite SetPixel_in_range by lia.
    replace (Z.succ (Z.of_nat (length past)))
      with (Z.of_nat (length (past ++ [LedRow 0 0 0])))
      by (rewrite length_app; cbn; lia).
    replace (Z.pred (Z.of_nat (length (p :: todo))))
      with (Z.of_nat (length todo)) by (cbn [length]; lia).
    rewrite Nat2Z.id, Hl.
    rewrite (IH (past ++ [LedRow 0 0 0])).
    + cbn [pwm_buffer events length replicate]. by rewrite <- app_assoc.
    + cbn [led_data]. rewrite <- app_assoc. cbn [app].
      replace (length past) with (length past + 0)%nat at 1 by lia.
      by rewrite alter_app_r.
    + rewrite length_app. cbn [length]. lia.
Qed.

Lemma clear_for s :
  store_sized s →
  for_up 0 ICLED_LED_COUNT (λ i s, ICLED_SetPixel i 0 0 0 s) s = blackened s.
Proof.
  intros Hn. unfold for_up, blackened.
  pose proof (clear_loop (led_data s) [] s eq_refl) as H.
  cbn [length Nat.add app] in H. rewrite Hn in H.
  rewrite Z.sub_0_r. apply H. done.
Qed.

(** The encode step only reads the pixel store. *)
Lemma encode_led_data s : led_data (ICLED_Show_encode s).2 = led_data s.
Proof.
  unfold ICLED_Show_encode, for_up, for_down. cbv zeta.
  apply (foldl_preserves (λ ps, led_data ps.2 = led_data s)); [|done].
  apply (foldl_preserves (λ ps, led_data ps.2 = led_data s)); [done|].
  intros ps i Hps.
  apply (foldl_preserves (λ ps, led_data ps.2 = led_data s)); [done|].
  intros ps' c Hps'.
  apply (foldl_preserves (λ ps, led_data ps.2 = led_data s)); done.
Qed.

Lemma Start_DMA_led_data pData Length s :
  led_data (HAL_TIM_PWM_Start_DMA pData Length s) = led_data s.
Proof. reflexivity. Qed.

Lemma Stop_DMA_led_data s : led_data (HAL_TIM_PWM_Stop_DMA s) = led_data s.
Proof. reflexivity. Qed.

Lemma Show_unfold s :
  ICLED_Show s =
    HAL_TIM_PWM_Start_DMA pwm_base ICLED_BUFFER_SIZE
      (HAL_TIM_PWM_Stop_DMA (ICLED_Show_encode s).2).
Proof. reflexivity. Qed.

(** [ICLED_Show] only reads the pixel store. *)
Lemma show_led_data s : led_data (ICLED_Show s) = led_data s.
Proof.
  rewrite Show_unfold, Start_DMA_led_data, Stop_DMA_led_data.
  apply encode_led_data.
Qed.

Lemma Init_unfold s :
  ICLED_Init s = HAL_TIM_PWM_Start_DMA pwm_base ICLED_BUFFER_SIZE (ICLED_Clear s).
Proof. reflexivity. Qed.

Lemma Clear_unfold s :
  ICLED_Clear s =
    ICLED_Show (for_up 0 ICLED_LED_COUNT (λ i s, ICLED_SetPixel i 0 0 0 s) s).
Proof. reflexivity. Qed.

Lemma Clear_show_blackened s :
  store_sized s → ICLED_Clear s = ICLED_Show (blackened s).
Proof. intros Hn. rewrite Clear_unfold, (clear_for s Hn). reflexivity. Qed.

Lemma blackened_sized s :
  buffer_sized s →
  store_sized (blackened s) ∧ buffer_sized (blackened s)
  ∧ events (blackened s) = events s.
Proof.
  intros Hb. split_and!; [|exact Hb|reflexivity].
  unfold store_sized, blackened. cbn [led_data]. apply length_replicate.
Qed.

Lemma hal_calls_after_stores pos vs l :
  hal_calls (store_log pos vs ++ l) = hal_calls l.
Proof.
  unfold hal_calls. rewrite filter_app.
  fold (hal_calls (store_log pos vs)). by rewrite store_log_no_hal.
Qed.

End Store.

(** ** Decoding what was encoded *)

Section Decode.

Lemma decode_all_bytes :
  Forall (λ v, decode_byte (byte_codes v) = Some v) (seqZ 0 256).
Proof. apply (bool_decide_unpack _). by vm_compute. Qed.

Lemma decode_byte_codes v :
  0 ≤ v ≤ UINT8_MAX → decode_byte (byte_codes v) = Some v.
Proof.
  intros Hv. pose proof decode_all_bytes as H.
  rewrite Forall_seqZ in H. apply H. unfold UINT8_MAX in Hv. lia.
Qed.

Lemma take_byte_codes v rest : take 8 (byte_codes v ++ rest) = byte_codes v.
Proof. by apply take_app_length'. Qed.

Lemma drop_byte_codes v rest : drop 8 (byte_codes v ++ rest) = rest.
Proof. by apply drop_app_length'. Qed.

Lemma drop_two_byte_codes v w rest :
  drop 16 (byte_codes v ++ byte_codes w ++ rest) = rest.
Proof. rewrite app_assoc. by apply drop_app_length'. Qed.

Lemma drop_row_codes p rest : drop 24 (row_codes p ++ rest) = rest.
Proof. by apply drop_app_length'. Qed.

Lemma decode_rows_data l : ∀ rest,
  Forall row_ok l → decode_rows (length l) (data_codes l ++ rest) = Some l.
Proof.
  induction l as [|p l IH]; intros rest Hok; [done|].
  apply Forall_cons in Hok as [(Hg & Hr & Hb) Hok].
  unfold data_codes. cbn [length fmap list_fmap concat decode_rows].
  fold (data_codes l). rewrite <- app_assoc, drop_row_codes, IH by done.
  unfold row_codes. rewrite <- !app_assoc.
  rewrite drop_two_byte_codes, drop_byte_codes, !take_byte_codes.
  rewrite !decode_byte_codes by done.
  by destruct p.
Qed.

End Decode.

(** * The claims *)

Section Claims.

(** C1.  For arrays of the declared sizes and an LED [i] whose logical
    colour is [rgb], [ICLED_Show] leaves in slot [24 i + 8 c + (7 - b)] of
    the timing buffer the code of bit [b] of byte [c] of the LED, the bytes
    counted in the order G, R, B: [ICLED_PWM_1] when the bit is set,
    [ICLED_PWM_0] otherwise.  The stores happen in slot order: store number
    [24 i + 8 c + (7 - b)] of the encode step (counting from 0) is the one to
    that slot, so LEDs go in index order, bytes in the order G, R, B, and
    bits from 7 down to 0. *)
Theorem C1_show_slot_layout s i c b rgb :
  store_sized s → buffer_sized s →
  0 ≤ i < ICLED_LED_COUNT → 0 ≤ c < 3 → 0 ≤ b ≤ 7 →
  read_back i s = Some rgb →
  let k := i * 24 + c * 8 + (7 - b) in
  let code :=
    if Z.testbit (grb_byte c rgb) b then ICLED_PWM_1 else ICLED_PWM_0 in
  led_read i c s = grb_byte c rgb ∧
  pwm_buffer (ICLED_Show s) !! Z.to_nat k = Some code ∧
  new_events s (ICLED_Show_encode s).2 !! Z.to_nat k = Some (EvStore k code).
Proof.
  intros Hn Hbuf Hi Hc Hb Hrgb k code.
  unfold read_back in Hrgb.
  destruct (led_data s !! Z.to_nat i) as [p|] eqn:Hp; [|discriminate].
  cbn in Hrgb. injection Hrgb as <-.
  assert (row_get c p = grb_byte c (cell1 p, cell0 p, cell2 p)) as Hcell
    by reflexivity.
  assert (led_read i c s = row_get c p) as Hread
    by (unfold led_read; by rewrite Hp).
  assert (frame_codes (led_data s) !! Z.to_nat k = Some code) as Hk.
  { subst k code. rewrite (lookup_frame_data _ _ _ _ p) by (done || lia).
    rewrite pwm_code_testbit by lia. by rewrite Hcell. }
  split; [by rewrite Hread|].
  rewrite show_result, encode_result by done. cbn [snd pwm_buffer].
  split; [done|].
  rewrite (new_events_app s _ (store_log 0 (frame_codes (led_data s)))) by done.
  rewrite (store_log_lookup _ _ _ code) by done.
  do 2 f_equal. subst k. lia.
Qed.

(** C5.  For a pixel store of the declared size whose cells hold 8-bit
    values, decoding the data portion of the timing buffer left by
    [ICLED_Show] (eight slots per byte, most significant bit first,
    [ICLED_PWM_1] for 1 and [ICLED_PWM_0] for 0) gives back the rows of the
    pixel store, (G, R, B) each, in LED index order. *)
Theorem C5_decode_after_show s :
  state_ok s →
  decode_frame (pwm_buffer (ICLED_Show s)) = Some (led_data s).
Proof.
  intros (Hn & Hbuf & Hok). unfold ICLED_Show, decode_frame.
  rewrite encode_result by done.
  cbn [snd pwm_buffer HAL_TIM_PWM_Start_DMA HAL_TIM_PWM_Stop_DMA].
  rewrite <- Hn. unfold frame_codes. by apply decode_rows_data.
Qed.

(** C6.  For arrays of the declared sizes, the encode step of [ICLED_Show]
    ends with [pos] equal to [ICLED_BUFFER_SIZE], which is
    [ICLED_LED_COUNT * 24 + ICLED_RESET_SLOTS]; it stores to the positions
    0, 1, ..., [ICLED_BUFFER_SIZE - 1], each once and in this order, so every
    slot of the buffer is written and none outside it; it does nothing else
    that is logged; the buffer keeps its length.  The stores land in the
    buffer: slot [k] holds [v] afterwards exactly when store number [k] was
    the store of [v] to position [k]; and nothing of the prior buffer is
    left, the buffer being the frame of the pixel store whatever it held
    before. *)
Theorem C6_encode_fills_buffer s :
  store_sized s → buffer_sized s →
  (ICLED_Show_encode s).1 = ICLED_BUFFER_SIZE ∧
  ICLED_BUFFER_SIZE = ICLED_LED_COUNT * 24 + ICLED_RESET_SLOTS ∧
  store_positions (new_events s (ICLED_Show_encode s).2)
    = seqZ 0 ICLED_BUFFER_SIZE ∧
  Forall (λ e, is_store e = true) (new_events s (ICLED_Show_encode s).2) ∧
  length (new_events s (ICLED_Show_encode s).2) = Z.to_nat ICLED_BUFFER_SIZE ∧
  length (pwm_buffer (ICLED_Show_encode s).2) = Z.to_nat ICLED_BUFFER_SIZE ∧
  (∀ (k : nat) (v : Z),
     pwm_buffer (ICLED_Show_encode s).2 !! k = Some v ↔
     new_events s (ICLED_Show_encode s).2 !! k = Some (EvStore (Z.of_nat k) v)) ∧
  pwm_buffer (ICLED_Show_encode s).2 = frame_codes (led_data s) ∧
  (∀ s', store_sized s' → buffer_sized s' → led_data s' = led_data s →
         pwm_buffer (ICLED_Show_encode s').2 = pwm_buffer (ICLED_Show_encode s).2).
Proof.
  intros Hn Hbuf. rewrite encode_result by done. cbn [fst snd pwm_buffer].
  assert (length (frame_codes (led_data s)) = Z.to_nat ICLED_BUFFER_SIZE) as Hlen.
  { rewrite length_frame_codes, Hn. reflexivity. }
  rewrite (new_events_app s _ (store_log 0 (frame_codes (led_data s)))) by done.
  split_and!.
  - reflexivity.
  - reflexivity.
  - rewrite store_log_positions, Hlen. reflexivity.
  - apply store_log_all_stores.
  - by rewrite length_store_log.
  - exact Hlen.
  - intros k v. unfold store_log. rewrite list_lookup_imap. split.
    + intros ->. cbn. by rewrite Z.add_0_l.
    + destruct (frame_codes (led_data s) !! k) as [v'|]; cbn; [|done].
      rewrite Z.add_0_l. intros Heq. by injection Heq as ->.
  - reflexivity.
  - intros s' Hn' Hbuf' Hl. rewrite encode_result by done.
    cbn [snd pwm_buffer]. by rewrite Hl.
Qed.

(** C7.  For arrays of the declared sizes, after [ICLED_Show] every slot at
    a position from [ICLED_LED_COUNT * 24] to [ICLED_BUFFER_SIZE - 1] holds 0,
    whatever the pixel store holds. *)
Theorem C7_reset_slots_zero s k :
  store_sized s → buffer_sized s →
  ICLED_LED_COUNT * 24 ≤ k < ICLED_BUFFER_SIZE →
  pwm_buffer (ICLED_Show s) !! Z.to_nat k = Some 0.
Proof.
  intros Hn Hbuf Hk. unfold ICLED_Show. rewrite encode_result by done.
  cbn [snd pwm_buffer HAL_TIM_PWM_Start_DMA HAL_TIM_PWM_Stop_DMA].
  apply lookup_frame_reset. rewrite Hn.
  unfold ICLED_BUFFER_SIZE, ICLED_TIMING_BITS, ICLED_BITS_PER_LED,
    ICLED_LED_COUNT, ICLED_RESET_SLOTS in *. lia.
Qed.

(** C2.  In a call of [ICLED_Show] on arrays of the declared sizes, what
    is logged is first the stores of the whole frame (so the buffer holds the
    encoded pixel store before any hardware call), then the stop, then the
    start; the start is given the base of [pwm_buffer] and the length
    [ICLED_BUFFER_SIZE], which is the length of the buffer; the hardware
    calls of the call are the stop followed by the start and nothing else. *)
Theorem C2_show_call_order s :
  store_sized s → buffer_sized s →
  new_events s (ICLED_Show_encode s).2
    = store_log 0 (frame_codes (led_data s)) ∧
  hal_calls (new_events s (ICLED_Show_encode s).2) = [] ∧
  pwm_buffer (ICLED_Show_encode s).2 = frame_codes (led_data s) ∧
  new_events s (ICLED_Show s)
    = new_events s (ICLED_Show_encode s).2
      ++ [EvStopDMA; EvStartDMA pwm_base ICLED_BUFFER_SIZE] ∧
  hal_calls (new_events s (ICLED_Show s))
    = [EvStopDMA; EvStartDMA pwm_base ICLED_BUFFER_SIZE] ∧
  pwm_buffer (ICLED_Show s) = pwm_buffer (ICLED_Show_encode s).2 ∧
  pwm_base = 0 ∧
  length (pwm_buffer (ICLED_Show s)) = Z.to_nat ICLED_BUFFER_SIZE.
Proof.
  intros Hn Hbuf. rewrite show_result, encode_result by done.
  cbn [snd pwm_buffer].
  set (frame := frame_codes (led_data s)).
  rewrite (new_events_app s _ (store_log 0 frame)) by done.
  rewrite (new_events_app s _
             (store_log 0 frame
                ++ [EvStopDMA; EvStartDMA pwm_base ICLED_BUFFER_SIZE])) by done.
  split_and!; try done.
  - apply store_log_no_hal.
  - by rewrite hal_calls_after_stores.
  - subst frame. rewrite length_frame_codes, Hn. reflexivity.
Qed.

(** C3 (as amended).  On arrays of the declared sizes, [ICLED_Init] is one
    [ICLED_Show] of the blackened pixel store followed by one more start
    over the whole buffer.  What it logs is the stores of the all-black
    frame, then the stop and the start issued by that [ICLED_Show], then the
    start issued by [ICLED_Init] itself: the hardware calls are stop, start,
    start, with no stop between the two starts. *)
Theorem C3_init_call_sequence s :
  store_sized s → buffer_sized s →
  ICLED_Init s
    = HAL_TIM_PWM_Start_DMA pwm_base ICLED_BUFFER_SIZE (ICLED_Show (blackened s)) ∧
  new_events s (ICLED_Init s)
    = store_log 0 (frame_codes (led_data (blackened s)))
      ++ [EvStopDMA;
          EvStartDMA pwm_base ICLED_BUFFER_SIZE;
          EvStartDMA pwm_base ICLED_BUFFER_SIZE] ∧
  hal_calls (new_events s (ICLED_Init s))
    = [EvStopDMA;
       EvStartDMA pwm_base ICLED_BUFFER_SIZE;
       EvStartDMA pwm_base ICLED_BUFFER_SIZE].
Proof.
  intros Hn Hbuf. rewrite Init_unfold, Clear_show_blackened by done.
  split; [reflexivity|].
  destruct (blackened_sized s Hbuf) as (Hn' & Hbuf' & Hev).
  generalize dependent (blackened s). intros s0 Hn' Hbuf' Hev.
  rewrite show_result by done.
  rewrite (new_events_app s _
             (store_log 0 (frame_codes (led_data s0))
                ++ [EvStopDMA;
                    EvStartDMA pwm_base ICLED_BUFFER_SIZE;
                    EvStartDMA pwm_base ICLED_BUFFER_SIZE])).
  2:{ cbn [HAL_TIM_PWM_Start_DMA events]. by rewrite Hev, <- !app_assoc. }
  split; [reflexivity|].
  by rewrite hal_calls_after_stores.
Qed.

(** C4.  For an index from [ICLED_LED_COUNT] up to the largest [uint16_t]
    and any channel values, [ICLED_SetPixel] returns the state it was given:
    pixel store, timing buffer and log are the same, the function has no
    result in which an error could be reported, and an encode afterwards
    gives what the encode of the prior state gives. *)
Theorem C4_set_pixel_out_of_range s index r g b :
  ICLED_LED_COUNT ≤ index ≤ UINT16_MAX →
  ICLED_SetPixel index r g b s = s ∧
  led_data (ICLED_SetPixel index r g b s) = led_data s ∧
  ICLED_Show_encode (ICLED_SetPixel index r g b s) = ICLED_Show_encode s ∧
  pwm_buffer (ICLED_Show (ICLED_SetPixel index r g b s))
    = pwm_buffer (ICLED_Show s).
Proof.
  intros [Hlo _]. rewrite SetPixel_out_of_range by done. done.
Qed.

(** C8.  For an index inside the pixel store and any channel values,
    [ICLED_SetPixel index r g b] makes row [index] the triple (g, r, b), and
    reading that row back as a logical colour gives (r, g, b). *)
Theorem C8_set_pixel_read_back s index r g b :
  store_sized s → 0 ≤ index < ICLED_LED_COUNT →
  led_data (ICLED_SetPixel index r g b s) !! Z.to_nat index
    = Some (LedRow g r b) ∧
  read_back index (ICLED_SetPixel index r g b s) = Some (r, g, b).
Proof.
  intros Hn Hi.
  assert (is_Some (led_data s !! Z.to_nat index)) as [p Hp].
  { apply lookup_lt_is_Some. rewrite Hn. lia. }
  assert (led_data (ICLED_SetPixel index r g b s) !! Z.to_nat index
          = Some (LedRow g r b)) as Hrow.
  { rewrite SetPixel_led_data_lookup by lia.
    rewrite decide_True by done. by rewrite Hp. }
  split; [done|]. unfold read_back. by rewrite Hrow.
Qed.


(** C10.  For an index inside the pixel store, [ICLED_SetPixel] changes no
    row other than row [index], keeps the number of rows, and leaves the
    timing buffer and the log as they were.  [ICLED_Show], on any state,
    leaves the pixel store as it was. *)
Theorem C10_frame_conditions s index r g b :
  0 ≤ index < ICLED_LED_COUNT →
  (∀ j, j ≠ Z.to_nat index →
        led_data (ICLED_SetPixel index r g b s) !! j = led_data s !! j) ∧
  length (led_data (ICLED_SetPixel index r g b s)) = length (led_data s) ∧
  pwm_buffer (ICLED_SetPixel index r g b s) = pwm_buffer s ∧
  events (ICLED_SetPixel index r g b s) = events s ∧
  (∀ s', led_data (ICLED_Show s') = led_data s').
Proof.
  intros Hi. split_and!.
  - intros j Hj. rewrite SetPixel_led_data_lookup by lia.
    by rewrite decide_False by done.
  - rewrite SetPixel_in_range by lia. cbn [led_data]. apply length_alter.
  - by rewrite SetPixel_in_range by lia.
  - by rewrite SetPixel_in_range by lia.
  - apply show_led_data.
Qed.

End Claims.

(** * Concrete runs *)

Section Runs.

(** The scenario of the specification on the first two LEDs: LED 0 set to
    R = 0x01, G = B = 0 gives eight zero codes for G, seven zero codes and a
    one code for R, eight zero codes for B; LED 1, left black, gives 24 zero
    codes. *)
Example show_red_one :
  take 48 (pwm_buffer (ICLED_Show (ICLED_SetPixel 0 0x01 0x00 0x00 boot_state)))
  = replicate 15 ICLED_PWM_0 ++ [ICLED_PWM_1] ++ replicate 32 ICLED_PWM_0.
Proof. vm_compute. reflexivity. Qed.

Example show_red_one_reset :
  drop (Z.to_nat ICLED_TIMING_BITS)
       (pwm_buffer (ICLED_Show (ICLED_SetPixel 0 0x01 0x00 0x00 boot_state)))
  = replicate (Z.to_nat ICLED_RESET_SLOTS) 0.
Proof. vm_compute. reflexivity. Qed.

Example init_calls_from_boot :
  hal_calls (events (ICLED_Init boot_state))
  = [EvStopDMA; EvStartDMA 0 2720; EvStartDMA 0 2720].
Proof. vm_compute. reflexivity. Qed.

(** C3, as stated, fails from start-up: the hardware calls of [ICLED_Init]
    begin with the stop issued by [ICLED_Show], so the first start of the
    trace does have a stop before it. *)
Lemma C3_first_start_follows_a_stop :
  ¬ first_start_unstopped
      (hal_calls (new_events boot_state (ICLED_Init boot_state))).
Proof.
  assert (hal_calls (new_events boot_state (ICLED_Init boot_state))
          = [EvStopDMA; EvStartDMA 0 2720; EvStartDMA 0 2720]) as ->
    by (vm_compute; reflexivity).
  intros (pre & pData & Length & post & Heq & Hpre).
  destruct pre as [|e pre]; [discriminate|].
  cbn [app] in Heq. injection Heq as <- _.
  apply Forall_cons in Hpre as [[_ Hstop] _]. discriminate.
Qed.

(** LED 0 of [demo_state] is (R, G, B) = (1, 0, 0): bit 0 of byte 1 is
    set, and slot 15 holds the one code. *)
Lemma C1_witness :
  store_sized demo_state ∧ buffer_sized demo_state ∧
  read_back 0 demo_state = Some (1, 0, 0) ∧
  pwm_buffer (ICLED_Show demo_state) !! Z.to_nat (0 * 24 + 1 * 8 + (7 - 0))
    = Some (if Z.testbit (grb_byte 1 (1, 0, 0)) 0
            then ICLED_PWM_1 else ICLED_PWM_0).
Proof.
  assert (store_sized demo_state) as Hn by (vm_compute; reflexivity).
  assert (buffer_sized demo_state) as Hb by (vm_compute; reflexivity).
  assert (read_back 0 demo_state = Some (1, 0, 0)) as Hrgb
    by (vm_compute; reflexivity).
  assert (0 ≤ 0 < ICLED_LED_COUNT) as Hi by (unfold ICLED_LED_COUNT; lia).
  assert (0 ≤ 1 < 3) as Hc by lia.
  assert (0 ≤ 0 ≤ 7) as Hbit by lia.
  split; [exact Hn|]. split; [exact Hb|]. split; [exact Hrgb|].
  exact (proj1 (proj2
           (C1_show_slot_layout demo_state 0 1 0 (1, 0, 0)
              Hn Hb Hi Hc Hbit Hrgb))).
Defined.

Lemma C2_witness :
  store_sized demo_state ∧ buffer_sized demo_state ∧
  hal_calls (new_events demo_state (ICLED_Show demo_state))
    = [EvStopDMA; EvStartDMA pwm_base ICLED_BUFFER_SIZE].
Proof.
  assert (store_sized demo_state) as Hn by (vm_compute; reflexivity).
  assert (buffer_sized demo_state) as Hb by (vm_compute; reflexivity).
  split; [exact Hn|]. split; [exact Hb|].
  exact (proj1 (proj2 (proj2 (proj2 (proj2
           (C2_show_call_order demo_state Hn Hb)))))).
Defined.

Lemma C3_witness :
  store_sized boot_state ∧ buffer_sized boot_state ∧
  hal_calls (new_events boot_state (ICLED_Init boot_state))
    = [EvStopDMA;
       EvStartDMA pwm_base ICLED_BUFFER_SIZE;
       EvStartDMA pwm_base ICLED_BUFFER_SIZE].
Proof.
  assert (store_sized boot_state) as Hn by (vm_compute; reflexivity).
  assert (buffer_sized boot_state) as Hb by (vm_compute; reflexivity).
  split; [exact Hn|]. split; [exact Hb|].
  exact (proj2 (proj2 (C3_init_call_sequence boot_state Hn Hb))).
Defined.

(** The out-of-range scenario of the specification. *)
Lemma C4_witness :
  ICLED_LED_COUNT ≤ ICLED_LED_COUNT ≤ UINT16_MAX ∧
  ICLED_SetPixel ICLED_LED_COUNT 255 255 255 demo_state = demo_state ∧
  pwm_buffer (ICLED_Show (ICLED_SetPixel ICLED_LED_COUNT 255 255 255 demo_state))
    = pwm_buffer (ICLED_Show demo_state).
Proof.
  assert (ICLED_LED_COUNT ≤ ICLED_LED_COUNT ≤ UINT16_MAX) as Hi
    by (unfold ICLED_LED_COUNT, UINT16_MAX; lia).
  split; [exact Hi|].
  pose proof (C4_set_pixel_out_of_range demo_state ICLED_LED_COUNT 255 255 255 Hi)
    as (H1 & _ & _ & H4).
  split; [exact H1|exact H4].
Defined.

Lemma C5_witness :
  state_ok demo_state ∧
  decode_frame (pwm_buffer (ICLED_Show demo_state)) = Some (led_data demo_state).
Proof.
  assert (state_ok demo_state) as Hok.
  { split_and!; [vm_compute; reflexivity..|].
    apply (bool_decide_unpack _). vm_compute. exact I. }
  split; [exact Hok|]. exact (C5_decode_after_show demo_state Hok).
Defined.

Lemma C6_witness :
  store_sized demo_state ∧ buffer_sized demo_state ∧
  (ICLED_Show_encode demo_state).1 = ICLED_BUFFER_SIZE ∧
  store_positions (new_events demo_state (ICLED_Show_encode demo_state).2)
    = seqZ 0 ICLED_BUFFER_SIZE ∧
  (∀ (k : nat) (v : Z),
     pwm_buffer (ICLED_Show_encode demo_state).2 !! k = Some v ↔
     new_events demo_state (ICLED_Show_encode demo_state).2 !! k
     = Some (EvStore (Z.of_nat k) v)) ∧
  pwm_buffer (ICLED_Show_encode demo_state).2 = frame_codes (led_data demo_state).
Proof.
  assert (store_sized demo_state) as Hn by (vm_compute; reflexivity).
  assert (buffer_sized demo_state) as Hb by (vm_compute; reflexivity).
  split; [exact Hn|]. split; [exact Hb|].
  pose proof (C6_encode_fills_buffer demo_state Hn Hb)
    as (H1 & _ & H3 & _ & _ & _ & H7 & H8 & _).
  split; [exact H1|]. split; [exact H3|]. split; [exact H7|exact H8].
Defined.

Lemma C7_witness :
  store_sized demo_state ∧ buffer_sized demo_state ∧
  ICLED_LED_COUNT * 24 ≤ 2520 < ICLED_BUFFER_SIZE ∧
  pwm_buffer (ICLED_Show demo_state) !! Z.to_nat 2520 = Some 0.
Proof.
  assert (store_sized demo_state) as Hn by (vm_compute; reflexivity).
  assert (buffer_sized demo_state) as Hb by (vm_compute; reflexivity).
  assert (ICLED_LED_COUNT * 24 ≤ 2520 < ICLED_BUFFER_SIZE) as Hk
    by (vm_compute; split; [discriminate|reflexivity]).
  split; [exact Hn|]. split; [exact Hb|]. split; [exact Hk|].
  exact (C7_reset_slots_zero demo_state 2520 Hn Hb Hk).
Defined.

Lemma C8_witness :
  store_sized demo_state ∧ 0 ≤ 3 < ICLED_LED_COUNT ∧
  led_data (ICLED_SetPixel 3 0x10 0x20 0x30 demo_state) !! Z.to_nat 3
    = Some (LedRow 0x20 0x10 0x30) ∧
  read_back 3 (ICLED_SetPixel 3 0x10 0x20 0x30 demo_state)
    = Some (0x10, 0x20, 0x30).
Proof.
  assert (store_sized demo_state) as Hn by (vm_compute; reflexivity).
  assert (0 ≤ 3 < ICLED_LED_COUNT) as Hi by (unfold ICLED_LED_COUNT; lia).
  split; [exact Hn|]. split; [exact Hi|].
  exact (C8_set_pixel_read_back demo_state 3 0x10 0x20 0x30 Hn Hi).
Defined.


Lemma C10_witness :
  0 ≤ 3 < ICLED_LED_COUNT ∧
  (∀ j, j ≠ Z.to_nat 3 →
        led_data (ICLED_SetPixel 3 0x10 0x20 0x30 demo_state) !! j
        = led_data demo_state !! j) ∧
  pwm_buffer (ICLED_SetPixel 3 0x10 0x20 0x30 demo_state)
    = pwm_buffer demo_state.
Proof.
  assert (0 ≤ 3 < ICLED_LED_COUNT) as Hi by (unfold ICLED_LED_COUNT; lia).
  split; [exact Hi|].
  pose proof (C10_frame_conditions demo_state 3 0x10 0x20 0x30 Hi)
    as (H1 & _ & H3 & _).
  split; [exact H1|exact H3].
Defined.

End Runs.

(** * Further properties of the driver *)

Section Driver.

Lemma data_codes_app l1 l2 : data_codes (l1 ++ l2) = data_codes l1 ++ data_codes l2.
Proof. unfold data_codes. by rewrite fmap_app, concat_app. Qed.

Lemma pwm_code_two_valued v b : pwm_code v b = ICLED_PWM_0 ∨ pwm_code v b = ICLED_PWM_1.
Proof. unfold pwm_code. destruct (_ =? _); auto. Qed.

Lemma data_codes_two_valued l :
  Forall (λ v, v = ICLED_PWM_0 ∨ v = ICLED_PWM_1) (data_codes l).
Proof.
  induction l as [|p l IH]; [constructor|].
  unfold data_codes in *. cbn [fmap list_fmap concat].
  apply Forall_app. split; [|exact IH].
  unfold row_codes, byte_codes. rewrite !Forall_app, !Forall_fmap.
  split_and!; apply Forall_forall; intros b _; apply pwm_code_two_valued.
Qed.

Lemma SetPixel_store_sized index r g b s :
  store_sized s → store_sized (ICLED_SetPixel index r g b s).
Proof.
  intros Hn. unfold store_sized in *.
  destruct (decide (index < ICLED_LED_COUNT)) as [Hi|Hi].
  - rewrite SetPixel_in_range by done. cbn [led_data]. by rewrite length_alter.
  - by rewrite SetPixel_out_of_range by lia.
Qed.

Lemma SetPixel_pwm_buffer index r g b s :
  pwm_buffer (ICLED_SetPixel index r g b s) = pwm_buffer s.
Proof.
  destruct (decide (index < ICLED_LED_COUNT)) as [Hi|Hi].
  - by rewrite SetPixel_in_range by done.
  - by rewrite SetPixel_out_of_range by lia.
Qed.

Lemma SetPixel_events index r g b s :
  events (ICLED_SetPixel index r g b s) = events s.
Proof.
  destruct (decide (index < ICLED_LED_COUNT)) as [Hi|Hi].
  - by rewrite SetPixel_in_range by done.
  - by rewrite SetPixel_out_of_range by lia.
Qed.

Lemma Show_store_sized s : store_sized s → store_sized (ICLED_Show s).
Proof. unfold store_sized. by rewrite show_led_data. Qed.

Lemma Show_buffer_sized s :
  store_sized s → buffer_sized s → buffer_sized (ICLED_Show s).
Proof.
  intros Hn Hb. unfold buffer_sized. rewrite show_result by done.
  cbn [pwm_buffer]. rewrite length_frame_codes, Hn. reflexivity.
Qed.

(** X1.  The timing buffer left by [ICLED_Show] is a function of the pixel
    store alone: two states of the declared sizes with the same pixel store
    get the same buffer, whatever their buffers held before; and a second
    [ICLED_Show] in a row leaves buffer and pixel store as the first did. *)
Theorem Show_buffer_from_store s s' :
  store_sized s → buffer_sized s → buffer_sized s' →
  led_data s' = led_data s →
  pwm_buffer (ICLED_Show s') = pwm_buffer (ICLED_Show s) ∧
  pwm_buffer (ICLED_Show (ICLED_Show s)) = pwm_buffer (ICLED_Show s) ∧
  led_data (ICLED_Show (ICLED_Show s)) = led_data (ICLED_Show s).
Proof.
  intros Hn Hb Hb' Hl.
  assert (store_sized s') as Hn' by (unfold store_sized; by rewrite Hl).
  split_and!.
  - rewrite !show_result by done. cbn [pwm_buffer]. by rewrite Hl.
  - rewrite (show_result (ICLED_Show s))
      by (by apply Show_store_sized || by apply Show_buffer_sized).
    cbn [pwm_buffer]. rewrite show_led_data, show_result by done. reflexivity.
  - by rewrite !show_led_data.
Qed.

(** X2.  After [ICLED_Show] on arrays of the declared sizes, every slot of
    the data portion holds one of the two codes [ICLED_PWM_0], [ICLED_PWM_1],
    every later slot holds 0, and every slot value fits [uint16_t]. *)
Theorem Show_slot_values s k v :
  store_sized s → buffer_sized s →
  pwm_buffer (ICLED_Show s) !! k = Some v →
  ((k < Z.to_nat ICLED_TIMING_BITS)%nat → v = ICLED_PWM_0 ∨ v = ICLED_PWM_1) ∧
  ((Z.to_nat ICLED_TIMING_BITS ≤ k)%nat → v = 0) ∧
  0 ≤ v ≤ UINT16_MAX.
Proof.
  intros Hn Hb. rewrite show_result by done. cbn [pwm_buffer].
  unfold frame_codes. intros Hk.
  assert (length (data_codes (led_data s)) = Z.to_nat ICLED_TIMING_BITS) as Hlen.
  { rewrite length_data_codes, Hn. reflexivity. }
  assert ((k < Z.to_nat ICLED_TIMING_BITS)%nat →
          v = ICLED_PWM_0 ∨ v = ICLED_PWM_1) as Hdata.
  { intros Hlt. rewrite lookup_app_l in Hk by lia.
    pose proof (data_codes_two_valued (led_data s)) as Hall.
    rewrite Forall_lookup in Hall. by eapply Hall. }
  assert ((Z.to_nat ICLED_TIMING_BITS ≤ k)%nat → v = 0) as Hreset.
  { intros Hge. rewrite lookup_app_r in Hk by lia.
    apply lookup_replicate in Hk as [-> _]. reflexivity. }
  split; [exact Hdata|]. split; [exact Hreset|].
  destruct (decide (k < Z.to_nat ICLED_TIMING_BITS)%nat) as [Hlt|Hge].
  - destruct (Hdata Hlt) as [-> | ->]; done.
  - rewrite Hreset by lia. done.
Qed.

(** X3.  Writing a pixel twice is the same as writing the last colour
    once, for any index, inside the pixel store or not. *)
Theorem SetPixel_last_write_wins index r g b r' g' b' s :
  ICLED_SetPixel index r' g' b' (ICLED_SetPixel index r g b s)
  = ICLED_SetPixel index r' g' b' s.
Proof.
  destruct (decide (index < ICLED_LED_COUNT)) as [Hi|Hi].
  - rewrite !SetPixel_in_range by done. cbn [led_data pwm_buffer events].
    by rewrite list_alter_alter_eq.
  - by rewrite !SetPixel_out_of_range by lia.
Qed.

(** X4.  Writes to two different indices can be swapped. *)
Theorem SetPixel_commute i j r g b r' g' b' s :
  0 ≤ i → 0 ≤ j → i ≠ j →
  ICLED_SetPixel i r g b (ICLED_SetPixel j r' g' b' s)
  = ICLED_SetPixel j r' g' b' (ICLED_SetPixel i r g b s).
Proof.
  intros Hi Hj Hne.
  destruct (decide (i < ICLED_LED_COUNT)) as [Hil|Hil];
    destruct (decide (j < ICLED_LED_COUNT)) as [Hjl|Hjl];
    rewrite ?(SetPixel_out_of_range i) by lia;
    rewrite ?(SetPixel_out_of_range j) by lia; try done.
  rewrite !SetPixel_in_range by done. cbn [led_data pwm_buffer events].
  f_equal. apply list_alter_alter_ne. lia.
Qed.

Lemma SetPixel_rows_ok index r g b s :
  0 ≤ r ≤ UINT8_MAX → 0 ≤ g ≤ UINT8_MAX → 0 ≤ b ≤ UINT8_MAX →
  Forall row_ok (led_data s) →
  Forall row_ok (led_data (ICLED_SetPixel index r g b s)).
Proof.
  intros Hr Hg Hb Hok.
  destruct (decide (index < ICLED_LED_COUNT)) as [Hi|Hi].
  - rewrite SetPixel_in_range by done. cbn [led_data].
    apply Forall_alter; [done|]. intros p _ _. unfold row_ok. cbn. lia.
  - by rewrite SetPixel_out_of_range by lia.
Qed.

Lemma Start_DMA_pwm_buffer pData Length s :
  pwm_buffer (HAL_TIM_PWM_Start_DMA pData Length s) = pwm_buffer s.
Proof. reflexivity. Qed.

Lemma blackened_rows_ok s : Forall row_ok (led_data (blackened s)).
Proof.
  unfold blackened. cbn [led_data]. apply Forall_replicate.
  unfold row_ok, UINT8_MAX. cbn. lia.
Qed.

(** X5.  The driver keeps its arrays well formed: from a state whose arrays
    have the declared sizes and whose cells hold 8-bit values, [ICLED_Show],
    [ICLED_Clear], [ICLED_Init] and, for 8-bit channel values and any index,
    [ICLED_SetPixel] lead to such a state again. *)
Theorem driver_keeps_state_ok s :
  state_ok s →
  state_ok (ICLED_Show s) ∧ state_ok (ICLED_Clear s) ∧ state_ok (ICLED_Init s) ∧
  (∀ index r g b,
     0 ≤ r ≤ UINT8_MAX → 0 ≤ g ≤ UINT8_MAX → 0 ≤ b ≤ UINT8_MAX →
     state_ok (ICLED_SetPixel index r g b s)).
Proof.
  intros (Hn & Hb & Hok).
  assert (∀ s0, state_ok s0 → state_ok (ICLED_Show s0)) as Hshow.
  { intros s0 (Hn0 & Hb0 & Hok0). split_and!.
    - by apply Show_store_sized.
    - by apply Show_buffer_sized.
    - by rewrite show_led_data. }
  assert (state_ok (ICLED_Clear s)) as Hclear.
  { rewrite Clear_show_blackened by done. apply Hshow.
    destruct (blackened_sized s Hb) as (Hn' & Hb' & _).
    split_and!; [done..|]. apply blackened_rows_ok. }
  split_and!.
  - apply Hshow. by split_and!.
  - exact Hclear.
  - rewrite Init_unfold. destruct Hclear as (Hn' & Hb' & Hok').
    unfold state_ok, store_sized, buffer_sized in *.
    rewrite Start_DMA_led_data, Start_DMA_pwm_buffer. by split_and!.
  - intros index r g b Hr Hg Hbl. split_and!.
    + by apply SetPixel_store_sized.
    + unfold buffer_sized. by rewrite SetPixel_pwm_buffer.
    + by apply SetPixel_rows_ok.
Qed.

(** X6.  [ICLED_Show] loses nothing: two well-formed states whose timing
    buffers agree after [ICLED_Show] have the same pixel store. *)
Theorem Show_buffer_determines_store s s' :
  state_ok s → state_ok s' →
  pwm_buffer (ICLED_Show s) = pwm_buffer (ICLED_Show s') →
  led_data s = led_data s'.
Proof.
  intros (Hn & Hb & Hok) (Hn' & Hb' & Hok').
  rewrite !show_result by done. cbn [pwm_buffer]. unfold frame_codes.
  intros Heq.
  pose proof (decode_rows_data (led_data s)
                (replicate (Z.to_nat ICLED_RESET_SLOTS) 0) Hok) as H1.
  pose proof (decode_rows_data (led_data s')
                (replicate (Z.to_nat ICLED_RESET_SLOTS) 0) Hok') as H2.
  rewrite Heq, Hn, <- Hn', H2 in H1. by injection H1.
Qed.

Lemma lookup_middle_outside {A : Type} (l1 m1 m2 l2 : list A) k :
  length m1 = length m2 →
  (k < length l1 ∨ length l1 + length m1 ≤ k)%nat →
  (l1 ++ m1 ++ l2) !! k = (l1 ++ m2 ++ l2) !! k.
Proof.
  intros Hlen [Hk|Hk].
  - by rewrite !lookup_app_l by done.
  - rewrite !(lookup_app_r l1) by lia.
    rewrite !lookup_app_r by lia. by rewrite Hlen.
Qed.

(** X7.  Setting LED [index] changes, in the buffer of the next
    [ICLED_Show], at most the 24 slots of that LED: every slot outside
    [24 index .. 24 index + 23] is what [ICLED_Show] of the prior state
    gives. *)
Theorem SetPixel_Show_locality s index r g b k :
  store_sized s → buffer_sized s →
  0 ≤ index < ICLED_LED_COUNT →
  (k < 24 * Z.to_nat index ∨ 24 * Z.to_nat index + 24 ≤ k)%nat →
  pwm_buffer (ICLED_Show (ICLED_SetPixel index r g b s)) !! k
  = pwm_buffer (ICLED_Show s) !! k.
Proof.
  intros Hn Hb Hi Hk.
  rewrite !show_result
    by (done || by apply SetPixel_store_sized
         || (unfold buffer_sized; by rewrite SetPixel_pwm_buffer)).
  cbn [pwm_buffer]. rewrite SetPixel_in_range by lia. cbn [led_data].
  assert (is_Some (led_data s !! Z.to_nat index)) as [p Hp].
  { apply lookup_lt_is_Some. rewrite Hn. lia. }
  pose proof (take_drop_middle _ _ _ Hp) as Hsplit.
  assert (length (take (Z.to_nat index) (led_data s)) = Z.to_nat index) as Hlen.
  { rewrite length_take. apply lookup_lt_Some in Hp. lia. }
  rewrite <- Hsplit at 2. rewrite <- Hsplit at 1.
  replace (Z.to_nat index) with (length (take (Z.to_nat index) (led_data s)) + 0)%nat
    at 1 by lia.
  rewrite alter_app_r. cbn [alter list_alter].
  unfold frame_codes.
  rewrite !(data_codes_app (take _ _)).
  change (?x :: ?l) with ([x] ++ l).
  rewrite !(data_codes_app [_]). rewrite <- !app_assoc.
  apply lookup_middle_outside; [reflexivity|].
  rewrite length_data_codes, Hlen. unfold data_codes. cbn. lia.
Qed.

(** X8.  After [ICLED_Clear], and so after [ICLED_Init], the timing buffer
    is the dark frame: [ICLED_PWM_0] in every data slot, 0 in every reset
    slot, whatever pixel store and buffer held before. *)
Theorem Clear_dark_frame s :
  store_sized s → buffer_sized s →
  pwm_buffer (ICLED_Clear s)
    = replicate (Z.to_nat ICLED_TIMING_BITS) ICLED_PWM_0
      ++ replicate (Z.to_nat ICLED_RESET_SLOTS) 0 ∧
  pwm_buffer (ICLED_Init s) = pwm_buffer (ICLED_Clear s).
Proof.
  intros Hn Hb. split; [|rewrite Init_unfold; apply Start_DMA_pwm_buffer].
  rewrite Clear_show_blackened by done.
  destruct (blackened_sized s Hb) as (Hn' & Hb' & _).
  rewrite show_result by done. cbn [pwm_buffer].
  unfold blackened. cbn [led_data]. vm_compute. reflexivity.
Qed.

(** X9.  What is set is what is shown: after [ICLED_SetPixel index r g b]
    for an index inside the pixel store and [ICLED_Show], slot
    [24 index + 8 c + (7 - bit)] of the timing buffer holds the code of bit
    [bit] of byte [c] of the colour just written, in the order G, R, B. *)
Theorem SetPixel_then_Show s index r g b c bit :
  store_sized s → buffer_sized s →
  0 ≤ index < ICLED_LED_COUNT → 0 ≤ c < 3 → 0 ≤ bit ≤ 7 →
  pwm_buffer (ICLED_Show (ICLED_SetPixel index r g b s))
    !! Z.to_nat (index * 24 + c * 8 + (7 - bit))
  = Some (if Z.testbit (grb_byte c (r, g, b)) bit
          then ICLED_PWM_1 else ICLED_PWM_0).
Proof.
  intros Hn Hb Hi Hc Hbit.
  rewrite show_result
    by (by apply SetPixel_store_sized
         || (unfold buffer_sized; by rewrite SetPixel_pwm_buffer)).
  cbn [pwm_buffer].
  assert (is_Some (led_data s !! Z.to_nat index)) as [p Hp].
  { apply lookup_lt_is_Some. rewrite Hn. lia. }
  rewrite (lookup_frame_data _ _ _ _ (LedRow g r b)); [|  |lia..].
  - rewrite pwm_code_testbit by lia. reflexivity.
  - rewrite SetPixel_led_data_lookup by lia.
    rewrite decide_True by done. by rewrite Hp.
Qed.

End Driver.

(** * The example application *)

Section Pixels.

Lemma to_uint8_small z : 0 ≤ z ≤ UINT8_MAX → to_uint8 z = z.
Proof. unfold to_uint8, UINT8_MAX. intros. apply Z.mod_small. lia. Qed.

Lemma to_uint16_small z : 0 ≤ z ≤ UINT16_MAX → to_uint16 z = z.
Proof. unfold to_uint16, UINT16_MAX. intros. apply Z.mod_small. lia. Qed.

Lemma to_int16_small z : -32768 ≤ z ≤ 32767 → to_int16 z = z.
Proof. unfold to_int16. intros. rewrite Z.mod_small by lia. lia. Qed.

Lemma to_uint8_range z : 0 ≤ to_uint8 z ≤ UINT8_MAX.
Proof. unfold to_uint8, UINT8_MAX. zlia. Qed.

Lemma to_uint16_range z : 0 ≤ to_uint16 z ≤ UINT16_MAX.
Proof. unfold to_uint16, UINT16_MAX. zlia. Qed.

(** Reading a pixel back after a write. *)
Lemma read_back_SetPixel s i j r g b :
  store_sized s → 0 ≤ i → 0 ≤ j < ICLED_LED_COUNT →
  read_back j (ICLED_SetPixel i r g b s)
  = if decide (i = j) then Some (r, g, b) else read_back j s.
Proof.
  intros Hn Hi Hj. unfold read_back.
  destruct (decide (i < ICLED_LED_COUNT)) as [Hlt|Hge].
  - rewrite SetPixel_led_data_lookup by done.
    assert (is_Some (led_data s !! Z.to_nat j)) as [p Hp].
    { apply lookup_lt_is_Some. rewrite Hn. lia. }
    destruct (decide (i = j)) as [->|Hne].
    + rewrite decide_True by done. by rewrite Hp.
    + rewrite decide_False by lia. done.
  - rewrite SetPixel_out_of_range by lia. by rewrite decide_False by lia.
Qed.

Lemma read_back_Show s j : read_back j (ICLED_Show s) = read_back j s.
Proof. unfold read_back. by rewrite show_led_data. Qed.

Lemma read_back_sized s j :
  store_sized s → 0 ≤ j < ICLED_LED_COUNT → is_Some (read_back j s).
Proof.
  intros Hn Hj. unfold read_back. apply fmap_is_Some, lookup_lt_is_Some.
  rewrite Hn. lia.
Qed.

(** A run of writes of one colour to the indices [f c], [c] from a list. *)
Lemma fold_SetPixel_store_sized {C : Type} (f : C → Z) r g b cs : ∀ s,
  store_sized s →
  store_sized (foldl (λ s c, ICLED_SetPixel (f c) r g b s) s cs).
Proof.
  intros s Hn. apply (foldl_preserves store_sized); [done|].
  intros. by apply SetPixel_store_sized.
Qed.

Lemma read_back_fold_SetPixel {C : Type} (f : C → Z) r g b j cs : ∀ s,
  store_sized s → 0 ≤ j < ICLED_LED_COUNT → Forall (λ c, 0 ≤ f c) cs →
  read_back j (foldl (λ s c, ICLED_SetPixel (f c) r g b s) s cs)
  = if decide (j ∈ f <$> cs) then Some (r, g, b) else read_back j s.
Proof.
  induction cs as [|c cs IH]; intros s Hn Hj Hcs.
  - cbn [foldl fmap list_fmap]. rewrite decide_False; [done|]. apply not_elem_of_nil.
  - apply Forall_cons in Hcs as [Hc Hcs]. cbn [foldl fmap list_fmap].
    rewrite IH by (done || by apply SetPixel_store_sized).
    rewrite read_back_SetPixel by done.
    destruct (decide (j ∈ f <$> cs)) as [Hin|Hnin].
    + rewrite decide_True; [done|]. apply elem_of_cons. by right.
    + destruct (decide (f c = j)) as [<-|Hne].
      * rewrite decide_True; [done|]. apply elem_of_cons. by left.
      * rewrite decide_False; [done|].
        intros [?|?]%elem_of_cons; congruence.
Qed.

(** The first loop of both sweeps blackens the top row: the LEDs whose
    index is a multiple of 7. *)
Lemma top_row_index j :
  0 ≤ j < ICLED_LED_COUNT →
  j ∈ (λ c, to_uint16 (c * 7 + 0)) <$> seqZ 0 (15 - 0) ↔ j `mod` 7 = 0.
Proof.
  intros Hj. unfold ICLED_LED_COUNT in Hj. rewrite list_elem_of_fmap. split.
  - intros (c & -> & Hc%elem_of_seqZ).
    rewrite to_uint16_small by (unfold UINT16_MAX; lia). zlia.
  - intros Hmod. exists (j `div` 7). split.
    + rewrite to_uint16_small by (unfold UINT16_MAX; zlia). zlia.
    + apply elem_of_seqZ. zlia.
Qed.

Lemma read_back_top_row_clear s j :
  store_sized s → 0 ≤ j < ICLED_LED_COUNT →
  read_back j (for_up 0 15 (λ c s, ICLED_SetPixel (to_uint16 (c * 7 + 0)) 0 0 0 s) s)
  = if decide (j `mod` 7 = 0) then Some (0, 0, 0) else read_back j s.
Proof.
  intros Hn Hj. unfold for_up.
  rewrite (read_back_fold_SetPixel (λ c, to_uint16 (c * 7 + 0))) by
    (done || apply Forall_forall; intros; apply to_uint16_range).
  destruct (decide (j `mod` 7 = 0)) as [Hm|Hm].
  - rewrite decide_True; [done|]. by apply top_row_index.
  - rewrite decide_False; [done|]. by rewrite top_row_index.
Qed.

End Pixels.

(** ** The Knight Rider sweeps *)

(** Closes the side conditions of [read_back_SetPixel] in a chain of
    writes. *)
Ltac pixel_side :=
  first
    [ assumption
    | apply to_uint16_range
    | solve [repeat first [ assumption
                          | apply SetPixel_store_sized
                          | apply fold_SetPixel_store_sized ]]
    | (unfold ICLED_LED_COUNT; lia) ].

Section Sweeps.

Lemma near_level b : 0 ≤ b ≤ UINT8_MAX → to_uint8 ((b * 100) `quot` 100) = b.
Proof. intros Hb. rewrite to_uint8_small; unfold UINT8_MAX in *; zlia. Qed.

Lemma scaled_level b n d :
  0 ≤ b ≤ UINT8_MAX → 0 ≤ n ≤ d → 0 < d →
  to_uint8 ((b * n) `quot` d) = (b * n) `quot` d ∧ 0 ≤ (b * n) `quot` d ≤ b.
Proof.
  intros Hb Hn Hd.
  assert (0 ≤ (b * n) `quot` d ≤ b) as Hq.
  { split; [apply Z.quot_pos; nia|].
    apply Z.quot_le_upper_bound; [lia|]. nia. }
  split; [|done]. apply to_uint8_small. lia.
Qed.

Lemma NightRide_pixels brightness delay st w j :
  store_sized (drv w) →
  0 ≤ brightness ≤ UINT8_MAX → 0 ≤ col st ≤ 14 → 0 ≤ j ≤ 14 →
  read_back (7 * j) (drv (ICLED_NightRideDemo brightness delay st w).2)
  = Some (if Z.abs (j - col st) =? 0
          then to_uint8 ((brightness * 255) `quot` 100)
          else if Z.abs (j - col st) =? 1 then brightness
          else if Z.abs (j - col st) =? 2 then (brightness * 40) `quot` 100
          else 0,
          0, 0).
Proof.
  intros Hn Hb Hc Hj. destruct st as [dir c]. cbn [col direction] in *.
  unfold ICLED_NightRideDemo. cbn [snd drv HAL_Delay set_drv col].
  rewrite read_back_Show. unfold NightRide_draw.
  rewrite near_level by done.
  destruct (scaled_level brightness 40 100 Hb) as [-> _]; [lia..|].
  destruct (Z.ltb_spec 0 c); destruct (Z.ltb_spec 1 c);
    destruct (Z.ltb_spec c 14); destruct (Z.ltb_spec c 13); try lia;
    rewrite ?read_back_SetPixel by pixel_side;
    rewrite read_back_top_row_clear by pixel_side;
    rewrite (decide_True (P := (7 * j) `mod` 7 = 0)) by zlia;
    rewrite ?to_uint16_small by (unfold UINT16_MAX; lia);
    repeat case_decide; repeat case_match; try lia; reflexivity.
Qed.

(** X10.  One call of [ICLED_NightRideDemo] with the sweep in column [col]
    paints the top row (LED [7 j] for column [j]) red only: the head
    value in column [col], the brightness itself in the columns next to
    it, 40 percent of it two columns away, and 0 elsewhere. *)
Theorem NightRide_frame brightness delay st w j :
  store_sized (drv w) →
  0 ≤ brightness ≤ UINT8_MAX → 0 ≤ col st ≤ 14 → 0 ≤ j ≤ 14 →
  read_back (7 * j) (drv (ICLED_NightRideDemo brightness delay st w).2)
  = Some (if Z.abs (j - col st) =? 0
          then to_uint8 ((brightness * 255) `quot` 100)
          else if Z.abs (j - col st) =? 1 then brightness
          else if Z.abs (j - col st) =? 2 then (brightness * 40) `quot` 100
          else 0,
          0, 0).
Proof.
  intros Hn Hb Hc Hj. destruct st as [dir c]. cbn [col direction] in *.
  unfold ICLED_NightRideDemo. cbn [snd drv HAL_Delay set_drv col].
  rewrite read_back_Show. unfold NightRide_draw.
  rewrite near_level by done.
  destruct (scaled_level brightness 40 100 Hb) as [-> _]; [lia..|].
  destruct (Z.ltb_spec 0 c); destruct (Z.ltb_spec 1 c);
    destruct (Z.ltb_spec c 14); destruct (Z.ltb_spec c 13); try lia;
    rewrite ?read_back_SetPixel by pixel_side;
    rewrite read_back_top_row_clear by pixel_side;
    rewrite (decide_True (P := (7 * j) `mod` 7 = 0)) by zlia;
    rewrite ?to_uint16_small by (unfold UINT16_MAX; lia);
    repeat case_decide; repeat case_match; try lia; reflexivity.
Qed.

(** X11.  [ICLED_NightRideDemo] changes no LED outside the top row. *)
Theorem NightRide_other_rows brightness delay st w i :
  store_sized (drv w) → 0 ≤ col st ≤ 14 →
  0 ≤ i < ICLED_LED_COUNT → i `mod` 7 ≠ 0 →
  read_back i (drv (ICLED_NightRideDemo brightness delay st w).2)
  = read_back i (drv w).
Proof.
  intros Hn Hc Hi Hrow. destruct st as [dir c]. cbn [col direction] in *.
  unfold ICLED_NightRideDemo. cbn [snd drv HAL_Delay set_drv col].
  rewrite read_back_Show. unfold NightRide_draw.
  destruct (Z.ltb_spec 0 c); destruct (Z.ltb_spec 1 c);
    destruct (Z.ltb_spec c 14); destruct (Z.ltb_spec c 13); try lia;
    rewrite ?read_back_SetPixel by pixel_side;
    rewrite read_back_top_row_clear by pixel_side;
    rewrite (decide_False (P := i `mod` 7 = 0)) by done;
    rewrite ?to_uint16_small by (unfold UINT16_MAX; lia);
    repeat case_decide; try zlia; reflexivity.
Qed.

(** X12.  [ICLED_KnightRiderColorFade] changes no LED outside the top
    row. *)
Theorem ColorFade_other_rows brightness delay st w i :
  store_sized (drv w) → 0 ≤ col st ≤ 14 →
  0 ≤ i < ICLED_LED_COUNT → i `mod` 7 ≠ 0 →
  read_back i (drv (ICLED_KnightRiderColorFade brightness delay st w).2)
  = read_back i (drv w).
Proof.
  intros Hn Hc Hi Hrow. destruct st as [dir c]. cbn [col direction] in *.
  unfold ICLED_KnightRiderColorFade. cbn [snd drv HAL_Delay set_drv col].
  rewrite read_back_Show. unfold ColorFade_draw.
  destruct (Z.ltb_spec 0 c); destruct (Z.ltb_spec 1 c);
    destruct (Z.ltb_spec 2 c); destruct (Z.ltb_spec c 12);
    destruct (Z.ltb_spec c 14); destruct (Z.ltb_spec c 13); try lia;
    rewrite ?read_back_SetPixel by pixel_side;
    rewrite read_back_top_row_clear by pixel_side;
    rewrite (decide_False (P := i `mod` 7 = 0)) by done;
    rewrite ?to_uint16_small by (unfold UINT16_MAX; lia);
    repeat case_decide; try zlia; reflexivity.
Qed.

(** X13.  The head value of [ICLED_NightRideDemo] is the brightness taken
    as a percentage of 255 only up to 100 (where it is 255): for a
    brightness from 101 to 200 the value (brightness * 255) / 100 no longer
    fits the 8-bit parameter and the head LED gets 256 less, from 201 to
    255 it gets 512 less. *)
Theorem NightRide_head_level brightness delay st w :
  store_sized (drv w) → 0 ≤ brightness ≤ UINT8_MAX → 0 ≤ col st ≤ 14 →
  read_back (7 * col st) (drv (ICLED_NightRideDemo brightness delay st w).2)
  = Some ((brightness * 255) `quot` 100
          - (if brightness <=? 100 then 0
             else if brightness <=? 200 then 256 else 512),
          0, 0).
Proof.
  intros Hn Hb Hc.
  rewrite NightRide_pixels by (done || lia).
  rewrite Z.sub_diag. change (Z.abs 0 =? 0) with true. cbv iota.
  f_equal. f_equal. f_equal. unfold to_uint8, UINT8_MAX in *.
  destruct (Z.leb_spec brightness 100); [zlia|].
  destruct (Z.leb_spec brightness 200); zlia.
Qed.

(** X14.  One call of [ICLED_KnightRiderColorFade] with the sweep in column
    [col] paints the top row with the fade: (200/255 b, b, 0) in column
    [col], (230/255 b, 150/255 b, 0) next to it, (150/255 b, 50/255 b, 0)
    two columns away, (64/255 b, 0, 0) three columns away and black
    elsewhere; no value is truncated for any 8-bit brightness. *)
Theorem ColorFade_frame brightness delay st w j :
  store_sized (drv w) →
  0 ≤ brightness ≤ UINT8_MAX → 0 ≤ col st ≤ 14 → 0 ≤ j ≤ 14 →
  read_back (7 * j) (drv (ICLED_KnightRiderColorFade brightness delay st w).2)
  = Some (if Z.abs (j - col st) =? 0
          then ((brightness * 200) `quot` 255, brightness, 0)
          else if Z.abs (j - col st) =? 1
          then ((brightness * 230) `quot` 255, (brightness * 150) `quot` 255, 0)
          else if Z.abs (j - col st) =? 2
          then ((brightness * 150) `quot` 255, (brightness * 50) `quot` 255, 0)
          else if Z.abs (j - col st) =? 3
          then ((brightness * 64) `quot` 255, 0, 0)
          else (0, 0, 0)).
Proof.
  intros Hn Hb Hc Hj. destruct st as [dir c]. cbn [col direction] in *.
  unfold ICLED_KnightRiderColorFade. cbn [snd drv HAL_Delay set_drv col].
  rewrite read_back_Show. unfold ColorFade_draw.
  destruct (scaled_level brightness 64 255 Hb) as [-> _]; [lia..|].
  destruct (scaled_level brightness 150 255 Hb) as [-> _]; [lia..|].
  destruct (scaled_level brightness 50 255 Hb) as [-> _]; [lia..|].
  destruct (scaled_level brightness 230 255 Hb) as [-> _]; [lia..|].
  destruct (scaled_level brightness 200 255 Hb) as [-> _]; [lia..|].
  destruct (Z.ltb_spec 0 c); destruct (Z.ltb_spec 1 c);
    destruct (Z.ltb_spec 2 c); destruct (Z.ltb_spec c 12);
    destruct (Z.ltb_spec c 14); destruct (Z.ltb_spec c 13); try lia;
    rewrite ?read_back_SetPixel by pixel_side;
    rewrite read_back_top_row_clear by pixel_side;
    rewrite (decide_True (P := (7 * j) `mod` 7 = 0)) by zlia;
    rewrite ?to_uint16_small by (unfold UINT16_MAX; lia);
    repeat case_decide; repeat case_match; try lia; reflexivity.
Qed.

Lemma sweep_step_ok st :
  sweep_ok st →
  sweep_ok (sweep_advance st) ∧
  col (sweep_advance st) = col st + direction st ∧
  direction (sweep_advance st)
    = (if col (sweep_advance st) =? 14 then -1
       else if col (sweep_advance st) =? 0 then 1
       else direction st).
Proof.
  destruct st as [d c]. unfold sweep_ok, sweep_advance, int8_wrap.
  cbn [col direction].
  intros [[-> Hc]|[-> Hc]]; rewrite Z.mod_small by lia;
    match goal with |- context [14 <=? ?x] =>
      destruct (Z.leb_spec 14 x); [|destruct (Z.leb_spec x 0)]
    end; cbn [col direction]; repeat case_match; lia.
Qed.

(** X15.  [sweep_ok] is kept by the step both sweeps share, and under it
    the column moves by exactly one in the current direction each frame;
    the direction after the step is left in column 14, right in column 0
    and as before in between. *)
Theorem sweep_advance_ok st :
  sweep_ok st →
  sweep_ok (sweep_advance st) ∧
  col (sweep_advance st) = col st + direction st ∧
  direction (sweep_advance st)
    = (if col (sweep_advance st) =? 14 then -1
       else if col (sweep_advance st) =? 0 then 1
       else direction st).
Proof.
  destruct st as [d c]. unfold sweep_ok, sweep_advance, int8_wrap.
  cbn [col direction].
  intros [[-> Hc]|[-> Hc]]; rewrite Z.mod_small by lia;
    match goal with |- context [14 <=? ?x] =>
      destruct (Z.leb_spec 14 x); [|destruct (Z.leb_spec x 0)]
    end; cbn [col direction]; repeat case_match; lia.
Qed.

(** X16.  A sweep is periodic with period 28: from any state satisfying
    [sweep_ok], 28 frames lead back to the same column and direction. *)
Theorem sweep_period st :
  sweep_ok st → Nat.iter 28 sweep_advance st = st.
Proof.
  destruct st as [d c]. unfold sweep_ok. cbn [col direction].
  intros [[-> Hc]|[-> Hc]].
  - assert (c ∈ seqZ 0 14) as Hin by (apply elem_of_seqZ; lia).
    clear Hc. revert c Hin. apply Forall_forall.
    apply (bool_decide_unpack _). by vm_compute.
  - assert (c ∈ seqZ 1 14) as Hin by (apply elem_of_seqZ; lia).
    clear Hc. revert c Hin. apply Forall_forall.
    apply (bool_decide_unpack _). by vm_compute.
Qed.

End Sweeps.

(** ** The snake *)

Section Snake.

Lemma snake_index_table :
  Forall (λ m,
    Forall (λ step, 0 ≤ snake_index m step < ICLED_LED_COUNT)
           (seqZ 0 snake_total)
    ∧ NoDup (snake_index m <$> seqZ 0 snake_total))
    (seqZ 0 DIR_MODE_COUNT).
Proof. apply (bool_decide_unpack _). by vm_compute. Qed.

Lemma snake_index_facts m step step' :
  0 ≤ m < DIR_MODE_COUNT →
  0 ≤ step < snake_total → 0 ≤ step' < snake_total →
  0 ≤ snake_index m step < ICLED_LED_COUNT ∧
  (snake_index m step = snake_index m step' → step = step').
Proof.
  intros Hm Hs Hs'.
  pose proof snake_index_table as Htab.
  rewrite Forall_seqZ in Htab. destruct (Htab m) as [Hrange Hnodup]; [lia|].
  rewrite Forall_seqZ in Hrange. split; [apply Hrange; lia|].
  intros Heq. rewrite NoDup_alt in Hnodup.
  assert (∀ x, 0 ≤ x < snake_total →
            (snake_index m <$> seqZ 0 snake_total) !! Z.to_nat x
            = Some (snake_index m x)) as Hlook.
  { intros x Hx. rewrite list_lookup_fmap, lookup_seqZ_lt by lia.
    cbn. f_equal. f_equal. lia. }
  pose proof (Hnodup _ _ _ (Hlook step Hs)
                (eq_trans (Hlook step' Hs') (f_equal Some (eq_sym Heq)))).
  lia.
Qed.

(** X17.  In each of the four modes the [switch] of [ICLED_SnakePattern]
    maps the steps 0..104 to LED indices 0..104 (nothing is lost in the
    8-bit [index]) and maps different steps to different LEDs. *)
Theorem snake_index_bijective m step step' :
  0 ≤ m < DIR_MODE_COUNT →
  0 ≤ step < snake_total → 0 ≤ step' < snake_total →
  0 ≤ snake_index m step < ICLED_LED_COUNT ∧
  (snake_index m step = snake_index m step' → step = step').
Proof.
  intros Hm Hs Hs'.
  pose proof snake_index_table as Htab.
  rewrite Forall_seqZ in Htab. destruct (Htab m) as [Hrange Hnodup]; [lia|].
  rewrite Forall_seqZ in Hrange. split; [apply Hrange; lia|].
  intros Heq. rewrite NoDup_alt in Hnodup.
  assert (∀ x, 0 ≤ x < snake_total →
            (snake_index m <$> seqZ 0 snake_total) !! Z.to_nat x
            = Some (snake_index m x)) as Hlook.
  { intros x Hx. rewrite list_lookup_fmap, lookup_seqZ_lt by lia.
    cbn. f_equal. f_equal. lia. }
  pose proof (Hnodup _ _ _ (Hlook step Hs)
                (eq_trans (Hlook step' Hs') (f_equal Some (eq_sym Heq)))).
  lia.
Qed.

(** The brightness of segment [k] is not truncated. *)
Lemma snake_level_exact b len k :
  0 ≤ b ≤ UINT8_MAX → 1 ≤ len → 0 ≤ k < len →
  snake_level b len k = b - k * (b `quot` len) ∧
  0 ≤ b - k * (b `quot` len) ≤ b.
Proof.
  intros Hb Hlen Hk. unfold snake_level.
  assert (0 ≤ b `quot` len) by (apply Z.quot_pos; lia).
  assert (len * (b `quot` len) ≤ b) by (apply Z.mul_quot_le; lia).
  assert (0 ≤ b - k * (b `quot` len) ≤ b) as Hr by nia.
  split; [|done]. apply to_uint8_small. lia.
Qed.

Lemma snake_clear_read_back s j :
  store_sized s → 0 ≤ j < ICLED_LED_COUNT →
  read_back j (for_up 0 snake_total (λ i s, ICLED_SetPixel i 0 0 0 s) s)
  = Some (0, 0, 0).
Proof.
  intros Hn Hj. unfold for_up.
  rewrite (read_back_fold_SetPixel (λ i, i)) by
    (done || apply Forall_forall; intros i Hi%elem_of_seqZ; lia).
  rewrite decide_True; [done|].
  rewrite list_fmap_id. apply elem_of_seqZ. done.
Qed.

Lemma snake_segment_store_sized b st k s :
  store_sized s → store_sized (snake_segment b st k s).
Proof.
  intros Hn. unfold snake_segment. case_match; [done|].
  by apply SetPixel_store_sized.
Qed.

(** The segment loop, after [n] of its iterations. *)
Lemma snake_segments b st s0 (n : nat) :
  store_sized s0 → snake_ok st → 0 ≤ b ≤ UINT8_MAX →
  Z.of_nat n ≤ snakeLength st →
  let s' := foldl (λ acc k, snake_segment b st k acc) s0 (seqZ 0 (Z.of_nat n)) in
  store_sized s' ∧
  (∀ k, 0 ≤ k < Z.of_nat n → 0 ≤ headIndex st - k < snake_total →
        read_back (snake_index (mode st) (headIndex st - k)) s'
        = Some (0, b - k * (b `quot` snakeLength st), 0)) ∧
  (∀ j, 0 ≤ j < ICLED_LED_COUNT →
        (∀ k, 0 ≤ k < Z.of_nat n → 0 ≤ headIndex st - k < snake_total →
              snake_index (mode st) (headIndex st - k) ≠ j) →
        read_back j s' = read_back j s0).
Proof.
  intros Hn (Htick & Hhead & Hlen & Hgrow & Hmode) Hb.
  assert (snake_total = 105) as Htot by reflexivity.
  induction n as [|n IH]; intros Hle s'.
  - subst s'. cbn. split_and!; [done|intros; lia|done].
  - destruct IH as (IHn & IHseg & IHrest); [lia|].
    subst s'. rewrite seqZ_S, foldl_app. cbn [foldl].
    rewrite Z.add_0_l.
    set (s1 := foldl _ s0 (seqZ 0 (Z.of_nat n))) in *.
    split; [by apply snake_segment_store_sized|].
    unfold snake_segment.
    rewrite to_int16_small by lia.
    destruct (Z.ltb_spec (headIndex st - Z.of_nat n) 0) as [Hneg|Hpos];
      [|destruct (Z.leb_spec snake_total (headIndex st - Z.of_nat n))
          as [Hbig|Hin]]; cbn [orb].
    + split.
      * intros k Hk Hv. apply IHseg; lia.
      * intros j Hj Hmiss. apply IHrest; [done|]. intros k Hk. apply Hmiss. lia.
    + split.
      * intros k Hk Hv. apply IHseg; lia.
      * intros j Hj Hmiss. apply IHrest; [done|]. intros k Hk. apply Hmiss. lia.
    + destruct (snake_level_exact b (snakeLength st) (Z.of_nat n)) as [-> _];
        [lia..|].
      pose proof (snake_index_facts (mode st) (headIndex st - Z.of_nat n)
                    (headIndex st - Z.of_nat n)) as [Hidx _]; [lia..|].
      split.
      * intros k Hk Hv.
        pose proof (snake_index_facts (mode st) (headIndex st - k)
                      (headIndex st - Z.of_nat n)) as [Hidxk Hinj]; [lia..|].
        rewrite read_back_SetPixel by (done || lia).
        destruct (decide (k = Z.of_nat n)) as [->|Hne].
        -- by rewrite decide_True by done.
        -- rewrite decide_False by (intros Heq; symmetry in Heq;
                                     apply Hinj in Heq; lia).
           apply IHseg; lia.
      * intros j Hj Hmiss.
        rewrite read_back_SetPixel by (done || lia).
        rewrite decide_False by (apply Hmiss; lia).
        apply IHrest; [done|]. intros k Hk. apply Hmiss. lia.
Qed.

(** X18.  The frame drawn by one call of [ICLED_SnakePattern]: for every
    segment [k] below the snake's length whose step [headIndex - k] is on
    the matrix, the LED of that step is green only, with level
    [brightness - k * (brightness / snakeLength)] (the head has the full
    brightness, and no level is truncated); every other LED is black. *)
Theorem Snake_frame brightness delay st w :
  store_sized (drv w) → snake_ok st → 0 ≤ brightness ≤ UINT8_MAX →
  let s' := drv (ICLED_SnakePattern brightness delay st w).2 in
  (∀ k, 0 ≤ k < snakeLength st → 0 ≤ headIndex st - k < snake_total →
        read_back (snake_index (mode st) (headIndex st - k)) s'
        = Some (0, brightness - k * (brightness `quot` snakeLength st), 0) ∧
        0 ≤ brightness - k * (brightness `quot` snakeLength st) ≤ brightness) ∧
  (∀ j, 0 ≤ j < ICLED_LED_COUNT →
        (∀ k, 0 ≤ k < snakeLength st → 0 ≤ headIndex st - k < snake_total →
              snake_index (mode st) (headIndex st - k) ≠ j) →
        read_back j s' = Some (0, 0, 0)).
Proof.
  intros Hn Hok Hb s'. subst s'.
  unfold ICLED_SnakePattern. cbn [snd drv HAL_Delay set_drv].
  unfold snake_draw.
  pose proof Hok as (_ & _ & Hlen & _).
  set (s1 := for_up 0 snake_total _ (drv w)).
  unfold for_up. rewrite Z.sub_0_r.
  assert (store_sized s1) as Hn1
    by (by apply (fold_SetPixel_store_sized (λ i, i))).
  pose proof (snake_segments brightness st s1 (Z.to_nat (snakeLength st))
                Hn1 Hok Hb) as Hseg.
  rewrite Z2Nat.id in Hseg by lia.
  destruct Hseg as (_ & Hseg & Hrest); [lia|].
  split.
  - intros k Hk Hv. rewrite read_back_Show. split; [by apply Hseg|].
    by apply snake_level_exact; lia.
  - intros j Hj Hmiss. rewrite read_back_Show, Hrest by done.
    by apply snake_clear_read_back.
Qed.

Lemma snake_step_ok st : snake_ok st → snake_ok (snake_advance st).
Proof.
  destruct st as [t h len gr m].
  unfold snake_ok, snake_advance, DIR_MODE_COUNT, UINT16_MAX.
  change snake_total with 105. cbv zeta.
  cbn [tick headIndex snakeLength growing mode].
  intros (Ht & Hh & Hlen & Hgr & Hm).
  repeat (case_match; cbn [tick headIndex snakeLength growing mode] in * );
    unfold to_uint8, to_uint16 in *; split_and!; zlia.
Qed.

(** X19.  [snake_ok] is kept by every call: the length stays between 4 and
    16 (so the division by the length is defined), the mode stays one of
    the four, and the head index stays at most 16 steps past the matrix. *)
Theorem snake_advance_ok st : snake_ok st → snake_ok (snake_advance st).
Proof.
  destruct st as [t h len gr m].
  unfold snake_ok, snake_advance, DIR_MODE_COUNT, UINT16_MAX.
  change snake_total with 105. cbv zeta.
  cbn [tick headIndex snakeLength growing mode].
  intros (Ht & Hh & Hlen & Hgr & Hm).
  repeat (case_match; cbn [tick headIndex snakeLength growing mode] in * );
    unfold to_uint8, to_uint16 in *; split_and!; zlia.
Qed.

Lemma snake_advance_tick st :
  tick (snake_advance st) = to_uint16 (tick st + 1).
Proof.
  destruct st as [t h len gr m]. unfold snake_advance. cbv zeta.
  cbn [tick headIndex snakeLength growing mode].
  repeat (case_match; cbn [tick headIndex snakeLength growing mode] in * );
    reflexivity.
Qed.

Lemma snake_advance_mode st :
  mode (snake_advance st)
  = if to_uint16 (tick st + 1) `rem` 160 =? 0
    then to_uint8 ((mode st + 1) `rem` DIR_MODE_COUNT)
    else mode st.
Proof.
  destruct st as [t h len gr m]. unfold snake_advance. cbv zeta.
  cbn [tick headIndex snakeLength growing mode].
  repeat (case_match; cbn [tick headIndex snakeLength growing mode] in * );
    reflexivity || congruence.
Qed.

Lemma snake_iter_ok n st : snake_ok st → snake_ok (Nat.iter n snake_advance st).
Proof.
  intros Hok. induction n as [|n IH]; [done|]. rewrite Nat.iter_succ.
  by apply snake_step_ok.
Qed.

Lemma snake_iter_tick n st :
  0 ≤ tick st ≤ UINT16_MAX →
  tick (Nat.iter n snake_advance st) = to_uint16 (tick st + Z.of_nat n).
Proof.
  intros Ht. induction n as [|n IH].
  - cbn. rewrite Z.add_0_r. symmetry. by apply to_uint16_small.
  - rewrite Nat.iter_succ, snake_advance_tick, IH.
    unfold to_uint16. zlia.
Qed.

Lemma snake_iter_mode_stable n st :
  0 ≤ tick st ≤ UINT16_MAX →
  (∀ i, 1 ≤ i ≤ Z.of_nat n → to_uint16 (tick st + i) `rem` 160 ≠ 0) →
  mode (Nat.iter n snake_advance st) = mode st.
Proof.
  intros Ht. induction n as [|n IH]; intros Hfree; [done|].
  rewrite Nat.iter_succ, snake_advance_mode, snake_iter_tick by done.
  assert (to_uint16 (to_uint16 (tick st + Z.of_nat n) + 1)
          = to_uint16 (tick st + Z.of_nat (S n))) as ->
    by (unfold to_uint16; zlia).
  rewrite (proj2 (Z.eqb_neq _ _)) by (apply Hfree; lia).
  apply IH. intros i Hi. apply Hfree. lia.
Qed.

(** X20.  The snake changes mode every 160 frames, except across the
    wrap-around of the 16-bit [tick]: counted from a frame that left [tick]
    at a multiple of 160, the mode stays for the next 159 frames and moves
    to the next of the four modes at the 160th; only when that multiple is
    65440 the change comes at the 96th frame, when [tick] wraps to 0. *)
Theorem snake_mode_interval st (k : nat) :
  snake_ok st → tick st `rem` 160 = 0 →
  let gap := if tick st =? 65440 then 96%nat else 160%nat in
  ((k < gap)%nat → mode (Nat.iter k snake_advance st) = mode st) ∧
  mode (Nat.iter gap snake_advance st) = (mode st + 1) `rem` DIR_MODE_COUNT.
Proof.
  intros Hok Hmult gap.
  pose proof Hok as (Ht & _ & _ & _ & Hm).
  unfold UINT16_MAX, DIR_MODE_COUNT in *.
  assert (∀ i, 1 ≤ i < Z.of_nat gap → to_uint16 (tick st + i) `rem` 160 ≠ 0)
    as Hfree.
  { intros i Hi. subst gap. unfold to_uint16.
    destruct (Z.eqb_spec (tick st) 65440); zlia. }
  split.
  - intros Hk. apply snake_iter_mode_stable; [done|].
    intros i Hi. apply Hfree. lia.
  - assert (gap = S (Nat.pred gap)) as -> by (subst gap; by case_match).
    rewrite Nat.iter_succ, snake_advance_mode.
    rewrite snake_iter_tick by done.
    rewrite snake_iter_mode_stable; [|done|intros i Hi; apply Hfree; lia].
    assert (to_uint16 (to_uint16 (tick st + Z.of_nat (Nat.pred gap)) + 1) `rem` 160
            = 0) as ->.
    { subst gap. unfold to_uint16.
      destruct (Z.eqb_spec (tick st) 65440); cbn [Nat.pred]; zlia. }
    cbn. apply to_uint8_small. unfold UINT8_MAX. zlia.
Qed.

End Snake.

(** ** The starfield *)

Section Stars.

(** An invariant of the accumulator survives a fold whose steps keep it for
    the elements of the list. *)
Lemma foldl_preserves_in {A B : Type} (P : A → Prop) (f : A → B → A) l : ∀ a,
  P a → (∀ a b, b ∈ l → P a → P (f a b)) → P (foldl f a l).
Proof.
  induction l as [|b l IH]; intros a Ha Hf; [done|].
  cbn [foldl]. apply IH.
  - apply Hf; [apply elem_of_cons; by left|done].
  - intros a' b' Hb'. apply Hf. apply elem_of_cons. by right.
Qed.

Lemma star_at_insert_ne l i c x :
  0 ≤ i → 0 ≤ c → i ≠ c → star_at i (<[Z.to_nat c := x]> l) = star_at i l.
Proof.
  intros Hi Hc Hne. unfold star_at. by rewrite list_lookup_insert_ne by lia.
Qed.

Lemma star_at_insert_eq l i x :
  (Z.to_nat i < length l)%nat → star_at i (<[Z.to_nat i := x]> l) = x.
Proof.
  intros Hi. unfold star_at. by rewrite list_lookup_insert_eq by done.
Qed.

Lemma star_at_ok l i :
  Forall star_ok l → (Z.to_nat i < length l)%nat → star_ok (star_at i l).
Proof.
  intros Hok Hi. unfold star_at.
  destruct (lookup_lt_is_Some_2 l _ Hi) as [x Hx]. rewrite Hx. cbn.
  rewrite Forall_lookup in Hok. by eapply Hok.
Qed.

(** *** The spawn loop *)

Lemma star_spawn_world rnd i acc :
  drv (star_spawn rnd i acc).2 = drv acc.2 ∧
  delays (star_spawn rnd i acc).2 = delays acc.2.
Proof. unfold star_spawn. by repeat case_match. Qed.

Lemma star_spawn_length rnd i acc :
  length (star_spawn rnd i acc).1 = length acc.1.
Proof.
  unfold star_spawn. repeat case_match; cbn [fst]; by rewrite ?length_insert.
Qed.

Lemma star_spawn_ok rnd i acc :
  (∀ n, 0 ≤ rnd n) → Forall star_ok acc.1 →
  Forall star_ok (star_spawn rnd i acc).1.
Proof.
  intros Hrnd Hok. unfold star_spawn. repeat case_match; cbn [fst]; try done.
  apply Forall_insert; [done|].
  unfold star_ok, rand. cbn [fst snd star_index star_age star_color rand_used].
  unfold to_uint16, to_uint8, ICLED_LED_COUNT.
  match goal with |- context [rnd ?n `rem` 105] =>
    pose proof (Hrnd n) end.
  match goal with |- context [rnd ?n `rem` 5] =>
    pose proof (Hrnd n) end.
  match goal with |- context [rnd ?n `rem` 2] =>
    pose proof (Hrnd n) end.
  split_and!; zlia.
Qed.

Lemma star_spawn_alive rnd i c acc :
  star_age (star_at i acc.1) ≠ 0 → 0 ≤ i → 0 ≤ c →
  star_at i (star_spawn rnd c acc).1 = star_at i acc.1.
Proof.
  intros Hage Hi Hc. unfold star_spawn.
  destruct (Z.eqb_spec (star_age (star_at c acc.1)) 0) as [Hdead|Halive];
    [|done].
  case_match; [|done]. cbn [fst].
  apply star_at_insert_ne; [done..|]. intros ->. done.
Qed.

(** *** The render loop *)

Lemma star_render_length b i acc :
  length (star_render b i acc).1 = length acc.1.
Proof.
  unfold star_render. repeat case_match; cbn [fst]; by rewrite ?length_insert.
Qed.

Lemma star_render_store_sized b i acc :
  store_sized acc.2 → store_sized (star_render b i acc).2.
Proof.
  intros Hn. unfold star_render.
  repeat case_match; cbn [snd];
    repeat first [assumption | apply SetPixel_store_sized].
Qed.

Lemma star_render_ok b i acc :
  0 ≤ i → (Z.to_nat i < length acc.1)%nat →
  Forall star_ok acc.1 → Forall star_ok (star_render b i acc).1.
Proof.
  intros Hi Hlen Hok. unfold star_render.
  pose proof (star_at_ok _ i Hok Hlen) as (Hidx & Hage & Hcol).
  destruct (Z.ltb_spec 0 (star_age (star_at i acc.1))); [|done].
  assert (Forall star_ok
            (<[Z.to_nat i :=
                 MkStar (star_index (star_at i acc.1))
                        (to_uint8 (star_age (star_at i acc.1) - 1))
                        (star_color (star_at i acc.1))]> acc.1)) as Hnew.
  { apply Forall_insert; [done|].
    unfold star_ok. cbn [star_index star_age star_color].
    rewrite to_uint8_small by (unfold UINT8_MAX; lia). lia. }
  repeat case_match; cbn [fst]; done.
Qed.

Lemma star_render_other b i c acc :
  0 ≤ i → 0 ≤ c → i ≠ c →
  star_at i (star_render b c acc).1 = star_at i acc.1.
Proof.
  intros Hi Hc Hne. unfold star_render.
  repeat case_match; cbn [fst]; try done; by apply star_at_insert_ne.
Qed.

Lemma star_render_self b i acc :
  (Z.to_nat i < length acc.1)%nat →
  0 < star_age (star_at i acc.1) ≤ UINT8_MAX →
  star_at i (star_render b i acc).1
  = MkStar (star_index (star_at i acc.1))
           (star_age (star_at i acc.1) - 1)
           (star_color (star_at i acc.1)).
Proof.
  intros Hlen Hage. unfold star_render.
  rewrite (proj2 (Z.ltb_lt _ _)) by lia.
  rewrite to_uint8_small by lia.
  repeat case_match; cbn [fst]; by apply star_at_insert_eq.
Qed.

Lemma SetPixel_palette b i rgb s :
  store_sized s → 0 ≤ i → star_palette b rgb → all_in_palette b s →
  all_in_palette b (ICLED_SetPixel i rgb.1.1 rgb.1.2 rgb.2 s).
Proof.
  intros Hn Hi Hrgb Hall j Hj.
  rewrite read_back_SetPixel by done.
  case_decide; [|by apply Hall].
  exists rgb. destruct rgb as [[r g] bl]. done.
Qed.

Lemma star_render_palette b i acc :
  store_sized acc.2 → 0 ≤ star_index (star_at i acc.1) →
  all_in_palette b acc.2 → all_in_palette b (star_render b i acc).2.
Proof.
  intros Hn Hi Hall. unfold star_render.
  pose proof (SetPixel_palette b (star_index (star_at i acc.1)) (b, b, b))
    as Hwhite.
  pose proof (SetPixel_palette b (star_index (star_at i acc.1)) (b, b, 0))
    as Hyellow.
  pose proof (SetPixel_palette b (star_index (star_at i acc.1))
                (0, to_uint8 (b `quot` 2), b)) as Hback.
  cbn [fst snd] in Hwhite, Hyellow, Hback.
  repeat case_match; cbn [snd]; try done;
    repeat first
      [ assumption
      | apply Hback; [by repeat apply SetPixel_store_sized|done|by left|]
      | apply Hwhite; [done|done|right; by left|]
      | apply Hyellow; [done|done|right; by right|] ].
Qed.

(** *** The loops as a whole *)

Lemma spawn_loop_world rnd l w :
  drv (for_up 0 MAX_STARS (star_spawn rnd) (l, w)).2 = drv w ∧
  delays (for_up 0 MAX_STARS (star_spawn rnd) (l, w)).2 = delays w.
Proof.
  unfold for_up.
  apply (foldl_preserves (λ acc, drv acc.2 = drv w ∧ delays acc.2 = delays w));
    [done|].
  intros acc i [Hd Hl]. destruct (star_spawn_world rnd i acc) as [-> ->]. done.
Qed.

Lemma spawn_loop_ok rnd l w :
  (∀ n, 0 ≤ rnd n) →
  length l = Z.to_nat MAX_STARS → Forall star_ok l →
  length (for_up 0 MAX_STARS (star_spawn rnd) (l, w)).1 = Z.to_nat MAX_STARS ∧
  Forall star_ok (for_up 0 MAX_STARS (star_spawn rnd) (l, w)).1.
Proof.
  intros Hrnd Hlen Hok. unfold for_up.
  apply (foldl_preserves
           (λ acc, length acc.1 = Z.to_nat MAX_STARS ∧ Forall star_ok acc.1));
    [done|].
  intros acc i [Hl Ho]. split.
  - by rewrite star_spawn_length.
  - by apply star_spawn_ok.
Qed.

Lemma spawn_loop_alive rnd l w i :
  0 ≤ i → star_age (star_at i l) ≠ 0 →
  star_at i (for_up 0 MAX_STARS (star_spawn rnd) (l, w)).1 = star_at i l.
Proof.
  intros Hi Hage. unfold for_up.
  apply (foldl_preserves_in (λ acc, star_at i acc.1 = star_at i l)); [done|].
  intros acc c Hc%elem_of_seqZ Hacc.
  rewrite star_spawn_alive by (rewrite ?Hacc; done || lia). done.
Qed.

Lemma render_loop_ok b l s :
  length l = Z.to_nat MAX_STARS → Forall star_ok l → store_sized s →
  let r := for_up 0 MAX_STARS (star_render b) (l, s) in
  length r.1 = Z.to_nat MAX_STARS ∧ Forall star_ok r.1 ∧ store_sized r.2 ∧
  (all_in_palette b s → all_in_palette b r.2).
Proof.
  intros Hlen Hok Hn r. subst r. unfold for_up.
  apply (foldl_preserves_in
           (λ acc, length acc.1 = Z.to_nat MAX_STARS ∧ Forall star_ok acc.1 ∧
                   store_sized acc.2 ∧
                   (all_in_palette b s → all_in_palette b acc.2)));
    [done|].
  intros acc c Hc%elem_of_seqZ (Hl & Ho & Hs & Hp).
  assert (Z.to_nat c < length acc.1)%nat as Hc'
    by (rewrite Hl; unfold MAX_STARS in *; lia).
  split_and!.
  - by rewrite star_render_length.
  - apply star_render_ok; [lia|done..].
  - by apply star_render_store_sized.
  - intros Hall. apply star_render_palette; [done| |by apply Hp].
    by apply (star_at_ok _ c Ho Hc').
Qed.

Lemma render_loop_star b l s i :
  length l = Z.to_nat MAX_STARS → 0 ≤ i < MAX_STARS →
  0 < star_age (star_at i l) ≤ UINT8_MAX →
  star_at i (for_up 0 MAX_STARS (star_render b) (l, s)).1
  = MkStar (star_index (star_at i l)) (star_age (star_at i l) - 1)
           (star_color (star_at i l)).
Proof.
  intros Hlen Hi Hage. unfold for_up.
  replace (MAX_STARS - 0) with (i + (1 + (MAX_STARS - i - 1))) by lia.
  rewrite seqZ_app, (seqZ_app _ 1) by lia. rewrite !foldl_app.
  change (seqZ (0 + i) 1) with [0 + i]. cbn [foldl]. rewrite Z.add_0_l.
  set (before := foldl _ (l, s) (seqZ 0 i)).
  assert (star_at i before.1 = star_at i l ∧ length before.1 = length l)
    as [Hsame Hlen'].
  { subst before.
    apply (foldl_preserves_in
             (λ acc, star_at i acc.1 = star_at i l ∧ length acc.1 = length l));
      [done|].
    intros acc c Hc%elem_of_seqZ [Hs Hl].
    rewrite star_render_other by lia. by rewrite star_render_length. }
  apply (foldl_preserves_in
           (λ acc, star_at i acc.1
                   = MkStar (star_index (star_at i l))
                            (star_age (star_at i l) - 1)
                            (star_color (star_at i l)))).
  - rewrite star_render_self; rewrite ?Hsame, ?Hlen', ?Hlen;
      [done|unfold MAX_STARS in *; lia|done].
  - intros acc c Hc%elem_of_seqZ Hacc. by rewrite star_render_other by lia.
Qed.

Lemma background_loop b s :
  store_sized s →
  let s' := for_up 0 ICLED_LED_COUNT (λ i s,
              ICLED_SetPixel i 0 (to_uint8 (b `quot` 2)) b s) s in
  store_sized s' ∧
  ∀ j, 0 ≤ j < ICLED_LED_COUNT →
       read_back j s' = Some (0, to_uint8 (b `quot` 2), b).
Proof.
  intros Hn s'. subst s'. unfold for_up. split.
  - by apply (fold_SetPixel_store_sized (λ i, i)).
  - intros j Hj.
    rewrite (read_back_fold_SetPixel (λ i, i)) by
      (done || apply Forall_forall; intros i Hi%elem_of_seqZ; lia).
    rewrite decide_True; [done|].
    rewrite list_fmap_id. apply elem_of_seqZ. lia.
Qed.

Lemma Starfield_step_ok rnd brightness delay st w :
  (∀ n, 0 ≤ rnd n) → starfield_ok st → store_sized (drv w) →
  starfield_ok (ICLED_StarfieldEffect rnd brightness delay st w).1 ∧
  init (ICLED_StarfieldEffect rnd brightness delay st w).1 = 1 ∧
  store_sized (drv (ICLED_StarfieldEffect rnd brightness delay st w).2).
Proof.
  intros Hrnd (Hlen & Hok & Hinit) Hn.
  unfold ICLED_StarfieldEffect. cbv zeta. cbn [fst snd init stars drv HAL_Delay set_drv].
  set (s1 := if init st =? 0 then _ else drv w).
  assert (store_sized s1) as Hn1.
  { subst s1. case_match; [|done]. apply Show_store_sized.
    by apply (background_loop brightness (drv w)). }
  set (lw := for_up 0 MAX_STARS (star_spawn rnd) (stars st, set_drv s1 w)).
  destruct (spawn_loop_ok rnd (stars st) (set_drv s1 w) Hrnd Hlen Hok)
    as [Hlen1 Hok1].
  destruct (spawn_loop_world rnd (stars st) (set_drv s1 w)) as [Hdrv _].
  fold lw in Hlen1, Hok1, Hdrv. cbn [drv set_drv] in Hdrv.
  assert (store_sized (drv lw.2)) as Hn2 by (by rewrite Hdrv).
  destruct (render_loop_ok brightness lw.1 (drv lw.2) Hlen1 Hok1 Hn2)
    as (Hlen2 & Hok2 & Hn3 & _).
  split_and!.
  - unfold starfield_ok. cbn [stars init]. split_and!; [done..|].
    destruct Hinit as [-> | ->]; cbn; auto.
  - destruct Hinit as [-> | ->]; reflexivity.
  - by apply Show_store_sized.
Qed.

(** X21.  [starfield_ok] is kept by [ICLED_StarfieldEffect] when [rand()]
    returns non-negative values: there stay ten stars, each with an index
    inside the pixel store, an age of at most 8 and colour 0 or 1; and
    after the call the background has been painted ([init] is 1). *)
Theorem Starfield_keeps_ok rnd brightness delay st w :
  (∀ n, 0 ≤ rnd n) → starfield_ok st → store_sized (drv w) →
  starfield_ok (ICLED_StarfieldEffect rnd brightness delay st w).1 ∧
  init (ICLED_StarfieldEffect rnd brightness delay st w).1 = 1 ∧
  store_sized (drv (ICLED_StarfieldEffect rnd brightness delay st w).2).
Proof.
  intros Hrnd (Hlen & Hok & Hinit) Hn.
  unfold ICLED_StarfieldEffect. cbv zeta. cbn [fst snd init stars drv HAL_Delay set_drv].
  set (s1 := if init st =? 0 then _ else drv w).
  assert (store_sized s1) as Hn1.
  { subst s1. case_match; [|done]. apply Show_store_sized.
    by apply (background_loop brightness (drv w)). }
  set (lw := for_up 0 MAX_STARS (star_spawn rnd) (stars st, set_drv s1 w)).
  destruct (spawn_loop_ok rnd (stars st) (set_drv s1 w) Hrnd Hlen Hok)
    as [Hlen1 Hok1].
  destruct (spawn_loop_world rnd (stars st) (set_drv s1 w)) as [Hdrv _].
  fold lw in Hlen1, Hok1, Hdrv. cbn [drv set_drv] in Hdrv.
  assert (store_sized (drv lw.2)) as Hn2 by (by rewrite Hdrv).
  destruct (render_loop_ok brightness lw.1 (drv lw.2) Hlen1 Hok1 Hn2)
    as (Hlen2 & Hok2 & Hn3 & _).
  split_and!.
  - unfold starfield_ok. cbn [stars init]. split_and!; [done..|].
    destruct Hinit as [-> | ->]; cbn; auto.
  - destruct Hinit as [-> | ->]; reflexivity.
  - by apply Show_store_sized.
Qed.

(** One call of [ICLED_StarfieldEffect] leaves every LED in the palette
    when it paints the background itself or starts from a pixel store that
    is in the palette. *)
Lemma Starfield_step_palette rnd brightness delay st w :
  (∀ n, 0 ≤ rnd n) → starfield_ok st → store_sized (drv w) →
  init st = 0 ∨ all_in_palette brightness (drv w) →
  all_in_palette brightness
    (drv (ICLED_StarfieldEffect rnd brightness delay st w).2).
Proof.
  intros Hrnd (Hlen & Hok & Hinit) Hn Hpal.
  unfold ICLED_StarfieldEffect. cbv zeta. cbn [fst snd init stars drv HAL_Delay set_drv].
  set (s1 := if init st =? 0 then _ else drv w).
  assert (store_sized s1 ∧ all_in_palette brightness s1) as [Hn1 Hpal1].
  { subst s1. destruct (Z.eqb_spec (init st) 0) as [H0 | H1].
    - destruct (background_loop brightness (drv w) Hn) as [Hs Hbg]. split.
      + by apply Show_store_sized.
      + intros j Hj. rewrite read_back_Show, Hbg by done.
        eexists. split; [done|]. by left.
    - split; [done|]. by destruct Hpal. }
  set (lw := for_up 0 MAX_STARS (star_spawn rnd) (stars st, set_drv s1 w)).
  destruct (spawn_loop_ok rnd (stars st) (set_drv s1 w) Hrnd Hlen Hok)
    as [Hlen1 Hok1].
  destruct (spawn_loop_world rnd (stars st) (set_drv s1 w)) as [Hdrv _].
  fold lw in Hlen1, Hok1, Hdrv. cbn [drv set_drv] in Hdrv.
  assert (store_sized (drv lw.2)) as Hn2 by (by rewrite Hdrv).
  destruct (render_loop_ok brightness lw.1 (drv lw.2) Hlen1 Hok1 Hn2)
    as (_ & _ & _ & Hkeep).
  intros j Hj. rewrite read_back_Show. apply Hkeep; [|done].
  by rewrite Hdrv.
Qed.

(** Further calls keep the palette. *)
Lemma Starfield_calls_keep_palette rnd brightness delay n : ∀ st w,
  (∀ k, 0 ≤ rnd k) → starfield_ok st → store_sized (drv w) →
  all_in_palette brightness (drv w) →
  all_in_palette brightness
    (drv (Starfield_calls rnd brightness delay n st w).2).
Proof.
  induction n as [|n IH]; intros st w Hrnd Hok Hn Hpal; [exact Hpal|].
  cbn [Starfield_calls]. cbv zeta.
  destruct (Starfield_step_ok rnd brightness delay st w Hrnd Hok Hn)
    as (Hok' & _ & Hn').
  apply IH; [done..|].
  apply Starfield_step_palette; [done..|by right].
Qed.

(** X22.  From the first call on ([init] is 0, as at boot), whatever the
    pixel store holds before it, every LED shows one of three colours after
    each of any number of consecutive calls of [ICLED_StarfieldEffect] with
    the same brightness: the background (0, b/2, b), white (b, b, b) or
    yellow (b, b, 0).  The first call paints the background itself, so
    nothing is asked of the pixel store but its size. *)
Theorem Starfield_palette rnd brightness delay st w n :
  (∀ k, 0 ≤ rnd k) → starfield_ok st → store_sized (drv w) →
  init st = 0 →
  all_in_palette brightness
    (drv (Starfield_calls rnd brightness delay (S n) st w).2).
Proof.
  intros Hrnd Hok Hn Hinit. cbn [Starfield_calls]. cbv zeta.
  destruct (Starfield_step_ok rnd brightness delay st w Hrnd Hok Hn)
    as (Hok' & _ & Hn').
  apply Starfield_calls_keep_palette; [done..|].
  apply Starfield_step_palette; [done..|by left].
Qed.

(** X23.  A star that is alive at the start of a call of
    [ICLED_StarfieldEffect] is not respawned in it: after the call it has
    the same LED index and colour and an age smaller by one. *)
Theorem Starfield_star_ages rnd brightness delay st w i :
  starfield_ok st → 0 ≤ i < MAX_STARS →
  0 < star_age (star_at i (stars st)) →
  star_at i (stars (ICLED_StarfieldEffect rnd brightness delay st w).1)
  = MkStar (star_index (star_at i (stars st)))
           (star_age (star_at i (stars st)) - 1)
           (star_color (star_at i (stars st))).
Proof.
  intros (Hlen & Hok & Hinit) Hi Hage.
  unfold ICLED_StarfieldEffect. cbv zeta. cbn [fst snd init stars].
  set (s1 := if init st =? 0 then _ else drv w).
  set (lw := for_up 0 MAX_STARS (star_spawn rnd) (stars st, set_drv s1 w)).
  assert (star_at i lw.1 = star_at i (stars st)) as Hsame
    by (apply spawn_loop_alive; lia).
  assert (length lw.1 = Z.to_nat MAX_STARS) as Hlen1.
  { subst lw. unfold for_up.
    apply (foldl_preserves (λ acc, length acc.1 = Z.to_nat MAX_STARS)); [done|].
    intros acc c Hacc. by rewrite star_spawn_length. }
  assert (star_ok (star_at i (stars st))) as (_ & Hmax & _).
  { apply star_at_ok; [done|]. rewrite Hlen. unfold MAX_STARS in *. lia. }
  rewrite render_loop_star; rewrite ?Hsame; [done..|].
  unfold UINT8_MAX. lia.
Qed.

Lemma star_spawn_other rnd i c acc :
  0 ≤ i → 0 ≤ c → i ≠ c →
  star_at i (star_spawn rnd c acc).1 = star_at i acc.1.
Proof.
  intros Hi Hc Hne. unfold star_spawn.
  repeat case_match; cbn [fst]; try done. by apply star_at_insert_ne.
Qed.

(** A star as [star_spawn] makes it. *)
Lemma star_spawn_self rnd i acc :
  (∀ n, 0 ≤ rnd n) → (Z.to_nat i < length acc.1)%nat →
  star_at i (star_spawn rnd i acc).1 = star_at i acc.1 ∨
  (0 ≤ star_index (star_at i (star_spawn rnd i acc).1) < ICLED_LED_COUNT ∧
   4 ≤ star_age (star_at i (star_spawn rnd i acc).1) ≤ 8 ∧
   (star_color (star_at i (star_spawn rnd i acc).1) = 0 ∨
    star_color (star_at i (star_spawn rnd i acc).1) = 1)).
Proof.
  intros Hrnd Hlen. unfold star_spawn.
  repeat case_match; cbn [fst]; try (by left).
  right. rewrite star_at_insert_eq by done.
  unfold rand. cbn [fst snd star_index star_age star_color rand_used].
  unfold to_uint16, to_uint8, ICLED_LED_COUNT.
  match goal with |- context [rnd ?n `rem` 105] => pose proof (Hrnd n) end.
  match goal with |- context [rnd ?n `rem` 5] => pose proof (Hrnd n) end.
  match goal with |- context [rnd ?n `rem` 2] => pose proof (Hrnd n) end.
  split_and!; zlia.
Qed.

Lemma spawn_loop_star rnd l w i :
  (∀ n, 0 ≤ rnd n) → length l = Z.to_nat MAX_STARS → 0 ≤ i < MAX_STARS →
  let x := star_at i (for_up 0 MAX_STARS (star_spawn rnd) (l, w)).1 in
  x = star_at i l ∨
  (0 ≤ star_index x < ICLED_LED_COUNT ∧ 4 ≤ star_age x ≤ 8 ∧
   (star_color x = 0 ∨ star_color x = 1)).
Proof.
  intros Hrnd Hlen Hi x. subst x. unfold for_up.
  apply (foldl_preserves_in
           (λ acc, length acc.1 = Z.to_nat MAX_STARS ∧
                   (star_at i acc.1 = star_at i l ∨
                    (0 ≤ star_index (star_at i acc.1) < ICLED_LED_COUNT ∧
                     4 ≤ star_age (star_at i acc.1) ≤ 8 ∧
                     (star_color (star_at i acc.1) = 0 ∨
                      star_color (star_at i acc.1) = 1))))); [by split; [|left]|].
  intros acc c Hc%elem_of_seqZ [Hl Hacc]. split; [by rewrite star_spawn_length|].
  destruct (decide (i = c)) as [<-|Hne].
  - destruct (star_spawn_self rnd i acc Hrnd) as [Hsame|Hnew];
      [rewrite Hl; unfold MAX_STARS in *; lia| |by right].
    by rewrite Hsame.
  - by rewrite star_spawn_other by lia.
Qed.

Lemma render_loop_dead b l s i :
  0 ≤ i → star_age (star_at i l) = 0 →
  star_at i (for_up 0 MAX_STARS (star_render b) (l, s)).1 = star_at i l.
Proof.
  intros Hi Hdead. unfold for_up.
  apply (foldl_preserves_in (λ acc, star_at i acc.1 = star_at i l)); [done|].
  intros acc c Hc%elem_of_seqZ Hacc.
  destruct (decide (i = c)) as [<-|Hne].
  - unfold star_render. rewrite Hacc, Hdead.
    change (0 <? 0) with false. cbv iota. cbn [fst]. exact Hacc.
  - by rewrite star_render_other by lia.
Qed.

Lemma Starfield_stars rnd b d st w :
  stars (ICLED_StarfieldEffect rnd b d st w).1
  = (for_up 0 MAX_STARS (star_render b)
       ((for_up 0 MAX_STARS (star_spawn rnd)
           (stars st, set_drv (Starfield_first b st w) w)).1,
        drv (for_up 0 MAX_STARS (star_spawn rnd)
               (stars st, set_drv (Starfield_first b st w) w)).2)).1.
Proof. reflexivity. Qed.

(** A star just spawned, after the render loop. *)
Lemma render_loop_fresh b (lw : list Star * world) i :
  length lw.1 = Z.to_nat MAX_STARS → 0 ≤ i < MAX_STARS →
  0 ≤ star_index (star_at i lw.1) < ICLED_LED_COUNT →
  4 ≤ star_age (star_at i lw.1) ≤ 8 →
  (star_color (star_at i lw.1) = 0 ∨ star_color (star_at i lw.1) = 1) →
  let x := star_at i (for_up 0 MAX_STARS (star_render b) (lw.1, drv lw.2)).1 in
  (0 ≤ star_index x < ICLED_LED_COUNT ∧ 3 ≤ star_age x ≤ 7 ∧
   (star_color x = 0 ∨ star_color x = 1)).
Proof.
  intros Hlen1 Hi Hidx Hage Hcol. cbv zeta.
  rewrite render_loop_star; [|exact Hlen1|exact Hi|unfold UINT8_MAX; lia].
  cbn [star_index star_age star_color]. split_and!; try assumption; lia.
Qed.

(** X27.  A star that is dead at the start of a call of
    [ICLED_StarfieldEffect] is afterwards either as it was, or a new star
    on the matrix with colour 0 or 1 and an age from 3 to 7: it is spawned
    with an age from 4 to 8 and drawn and aged once in the same call. *)
Theorem Starfield_dead_star rnd brightness delay st w i :
  (∀ n, 0 ≤ rnd n) → starfield_ok st → 0 ≤ i < MAX_STARS →
  star_age (star_at i (stars st)) = 0 →
  let x := star_at i
             (stars (ICLED_StarfieldEffect rnd brightness delay st w).1) in
  x = star_at i (stars st) ∨
  (0 ≤ star_index x < ICLED_LED_COUNT ∧ 3 ≤ star_age x ≤ 7 ∧
   (star_color x = 0 ∨ star_color x = 1)).
Proof.
  intros Hrnd (Hlen & Hok & Hinit) Hi Hdead.
  rewrite Starfield_stars.
  destruct (spawn_loop_ok rnd (stars st)
              (set_drv (Starfield_first brightness st w) w) Hrnd Hlen Hok)
    as [Hlen1 _].
  pose proof (spawn_loop_star rnd (stars st)
                (set_drv (Starfield_first brightness st w) w) i Hrnd Hlen Hi)
    as Hstar.
  destruct Hstar as [Hsame|(Hidx & Hage & Hcol)].
  - left. rewrite render_loop_dead; [exact Hsame|lia|rewrite Hsame; exact Hdead].
  - right. by apply render_loop_fresh.
Qed.

End Stars.

(** ** The main-loop step and the button *)

Section App.

Lemma painted_refl s : state_ok s → painted s s.
Proof. intros Hok. unfold painted. by split_and!. Qed.

Lemma painted_SetPixel s s' i r g b :
  0 ≤ r ≤ UINT8_MAX → 0 ≤ g ≤ UINT8_MAX → 0 ≤ b ≤ UINT8_MAX →
  painted s s' → painted s (ICLED_SetPixel i r g b s').
Proof.
  intros Hr Hg Hb ((Hn & Hbuf & Hok) & He & Hp). split_and!.
  - split_and!.
    + by apply SetPixel_store_sized.
    + unfold buffer_sized. by rewrite SetPixel_pwm_buffer.
    + by apply SetPixel_rows_ok.
  - by rewrite SetPixel_events.
  - by rewrite SetPixel_pwm_buffer.
Qed.

Lemma painted_for_up s s' lo hi (body : Z → state → state) :
  (∀ i s', painted s s' → painted s (body i s')) →
  painted s s' → painted s (for_up lo hi body s').
Proof.
  intros Hbody Hs. unfold for_up.
  apply (foldl_preserves (painted s)); [done|]. intros. by apply Hbody.
Qed.

Ltac painted_step :=
  first
    [ assumption
    | apply painted_SetPixel;
        [ first [apply to_uint8_range | unfold UINT8_MAX; lia | assumption ] ..
        | ]
    | apply painted_for_up; [intros|] ].

Lemma NightRide_draw_painted b c s : state_ok s → painted s (NightRide_draw b c s).
Proof.
  intros Hok. apply painted_refl in Hok. unfold NightRide_draw.
  repeat case_match; repeat painted_step.
Qed.

Lemma ColorFade_draw_painted b c s :
  0 ≤ b ≤ UINT8_MAX → state_ok s → painted s (ColorFade_draw b c s).
Proof.
  intros Hb Hok. apply painted_refl in Hok. unfold ColorFade_draw.
  repeat case_match; repeat painted_step.
Qed.

Lemma snake_draw_painted b st s : state_ok s → painted s (snake_draw b st s).
Proof.
  intros Hok. apply painted_refl in Hok. unfold snake_draw.
  apply painted_for_up.
  - intros i s' Hs'. unfold snake_segment, snake_level.
    case_match; repeat painted_step.
  - repeat painted_step.
Qed.

Lemma star_render_painted b i s acc :
  0 ≤ b ≤ UINT8_MAX → painted s acc.2 → painted s (star_render b i acc).2.
Proof.
  intros Hb Hp. unfold star_render.
  repeat case_match; cbn [snd]; repeat painted_step.
Qed.

Lemma Show_painted s s' :
  painted s s' →
  state_ok (ICLED_Show s') ∧
  events (ICLED_Show s') = events s ++ show_log s' ∧
  hal_calls (show_log s') = [EvStopDMA; EvStartDMA pwm_base ICLED_BUFFER_SIZE].
Proof.
  intros ((Hn & Hbuf & Hok) & He & Hp). split_and!.
  - split_and!.
    + by apply Show_store_sized.
    + by apply Show_buffer_sized.
    + by rewrite show_led_data.
  - rewrite show_result by done. cbn [events]. by rewrite He.
  - unfold show_log. by rewrite hal_calls_after_stores.
Qed.

(** The end of every effect: [ICLED_Show], then [HAL_Delay]. *)
Lemma frame_tail s0 w s d :
  painted s0 s → drv w = s0 →
  let w' := HAL_Delay d (set_drv (ICLED_Show s) w) in
  state_ok (drv w') ∧
  events (drv w') = events s0 ++ show_log s ∧
  delays w' = delays w ++ [(length (events (drv w')), d)] ∧
  pwm_buffer (drv w') = frame_codes (led_data (drv w')).
Proof.
  intros Hp Hw w'. subst w'.
  destruct (Show_painted _ _ Hp) as (Hok & Hev & _).
  destruct Hp as ((Hn & Hb & _) & _).
  unfold HAL_Delay, set_drv. cbn [drv delays rand_used].
  split_and!; [done..|].
  rewrite show_led_data, show_result by done. reflexivity.
Qed.

Lemma hal_calls_app l1 l2 : hal_calls (l1 ++ l2) = hal_calls l1 ++ hal_calls l2.
Proof. unfold hal_calls. apply filter_app. Qed.

Lemma hal_calls_show_log s :
  hal_calls (show_log s) = [EvStopDMA; EvStartDMA pwm_base ICLED_BUFFER_SIZE].
Proof. unfold show_log. by rewrite hal_calls_after_stores. Qed.

Lemma background_painted b s :
  0 ≤ b ≤ UINT8_MAX → state_ok s →
  painted s (for_up 0 ICLED_LED_COUNT (λ i s,
               ICLED_SetPixel i 0 (to_uint8 (b `quot` 2)) b s) s).
Proof.
  intros Hb Hok. apply painted_refl in Hok. repeat painted_step.
Qed.

Lemma render_loop_painted b l s :
  0 ≤ b ≤ UINT8_MAX → state_ok s →
  painted s (for_up 0 MAX_STARS (star_render b) (l, s)).2.
Proof.
  intros Hb Hok. unfold for_up.
  apply (foldl_preserves (λ acc, painted s acc.2)); [by apply painted_refl|].
  intros acc i Hacc. by apply star_render_painted.
Qed.

(** What a call of [ICLED_StarfieldEffect] does to the world. *)
Lemma Starfield_world rnd b d st w :
  0 ≤ b ≤ UINT8_MAX → state_ok (drv w) →
  let w' := (ICLED_StarfieldEffect rnd b d st w).2 in
  state_ok (drv w') ∧
  delays w' = delays w ++ [(length (events (drv w')), d)] ∧
  pwm_buffer (drv w') = frame_codes (led_data (drv w')) ∧
  hal_calls (new_events (drv w) (drv w'))
    = (if init st =? 0
       then [EvStopDMA; EvStartDMA pwm_base ICLED_BUFFER_SIZE;
             EvStopDMA; EvStartDMA pwm_base ICLED_BUFFER_SIZE]
       else [EvStopDMA; EvStartDMA pwm_base ICLED_BUFFER_SIZE]).
Proof.
  intros Hb Hok w'. subst w'.
  unfold ICLED_StarfieldEffect. cbv zeta. cbn [snd].
  set (s1 := if init st =? 0 then _ else drv w).
  assert (state_ok s1 ∧ ∃ l, events s1 = events (drv w) ++ l ∧
            hal_calls l = if init st =? 0
                          then [EvStopDMA; EvStartDMA pwm_base ICLED_BUFFER_SIZE]
                          else []) as (Hok1 & l1 & Hev1 & Hl1).
  { subst s1. destruct (init st =? 0).
    - destruct (Show_painted _ _ (background_painted b (drv w) Hb Hok))
        as (Hs & He & Hh).
      split; [done|]. eexists. split; [exact He|exact Hh].
    - split; [done|]. exists []. by rewrite app_nil_r. }
  set (lw := for_up 0 MAX_STARS (star_spawn rnd) (stars st, set_drv s1 w)).
  destruct (spawn_loop_world rnd (stars st) (set_drv s1 w)) as [Hdrv Hdel].
  fold lw in Hdrv, Hdel. cbn [drv delays set_drv] in Hdrv, Hdel.
  assert (state_ok (drv lw.2)) as Hok2 by (by rewrite Hdrv).
  pose proof (render_loop_painted b lw.1 (drv lw.2) Hb Hok2) as Hp.
  destruct (frame_tail _ lw.2 _ d Hp eq_refl) as (Hok3 & Hev3 & Hdel3 & Hbuf3).
  split_and!; [done|by rewrite Hdel3, Hdel|done|].
  rewrite (new_events_app (drv w) _ (l1 ++ show_log
             (for_up 0 MAX_STARS (star_render b) (lw.1, drv lw.2)).2)).
  2:{ rewrite Hev3, Hdrv, Hev1. by rewrite <- app_assoc. }
  rewrite hal_calls_app, Hl1, hal_calls_show_log.
  by destruct (init st =? 0).
Qed.

Lemma app_boot_ok : app_ok app_boot.
Proof.
  unfold app_ok, app_boot.
  cbn [app_world effectMode night fade sky serpent drv].
  split_and!.
  - split_and!; [reflexivity..|]. apply (bool_decide_unpack _). by vm_compute.
  - done.
  - done.
  - left. done.
  - left. done.
  - split_and!; [reflexivity| |by left].
    apply Forall_replicate. unfold star_ok, ICLED_LED_COUNT.
    cbn [star_index star_age star_color]. lia.
  - unfold snake_ok, snake_boot, UINT16_MAX, DIR_MODE_COUNT, DIR_HORIZONTAL.
    cbn [tick headIndex snakeLength growing mode].
    change snake_total with 105. lia.
Qed.

Lemma run_step_ok rnd a :
  (∀ n, 0 ≤ rnd n) → app_ok a → app_ok (example_app_run rnd a).
Proof.
  intros Hrnd. destruct a as [w m n f sk sn].
  unfold app_ok, example_app_run, EFFECT_COUNT.
  cbn [app_world effectMode night fade sky serpent].
  intros (Hst & Hm & Hn & Hf & Hsk & Hsn).
  assert (m = 0 ∨ m = 1 ∨ m = 2 ∨ m = 3) as Hcases by lia.
  destruct_or!; subst m;
    unfold EFFECT_SIMPLE, EFFECT_GLOW, EFFECT_STARFIELD, EFFECT_SNAKE;
    cbn [Z.eqb Pos.eqb]; cbn [app_world effectMode night fade sky serpent].
  - unfold ICLED_NightRideDemo. cbn [fst snd].
    destruct (frame_tail _ w _ 80
                (NightRide_draw_painted 40 (col n) (drv w) Hst) eq_refl)
      as (Hok' & _).
    split_and!; try done. by apply sweep_step_ok.
  - unfold ICLED_KnightRiderColorFade. cbn [fst snd].
    assert (0 ≤ 40 ≤ UINT8_MAX) as Hb by done.
    destruct (frame_tail _ w _ 100
                (ColorFade_draw_painted 40 (col f) (drv w) Hb Hst) eq_refl)
      as (Hok' & _).
    split_and!; try done. by apply sweep_step_ok.
  - assert (0 ≤ 20 ≤ UINT8_MAX) as Hb by done.
    destruct (Starfield_world rnd 20 100 sk w Hb Hst) as (Hok' & _).
    destruct Hst as (Hsized & _).
    destruct (Starfield_step_ok rnd 20 100 sk w Hrnd Hsk Hsized) as (Hsk' & _).
    split_and!; done.
  - unfold ICLED_SnakePattern. cbn [fst snd].
    destruct (frame_tail _ w _ 60
                (snake_draw_painted 40 sn (drv w) Hst) eq_refl)
      as (Hok' & _).
    split_and!; try done. by apply snake_step_ok.
Qed.

Lemma callback_step_ok S2_Pin pin a :
  app_ok a → app_ok (HAL_GPIO_EXTI_Callback S2_Pin pin a).
Proof.
  destruct a as [w m n f sk sn].
  unfold app_ok, HAL_GPIO_EXTI_Callback, EFFECT_COUNT.
  cbn [app_world effectMode night fade sky serpent].
  intros (Hst & Hm & Hn & Hf & Hsk & Hsn).
  repeat case_match; cbn [app_world effectMode night fade sky serpent];
    split_and!; try done; lia.
Qed.

(** X24.  The button callback steps [effectMode] to the next of the four
    modes, from the last back to the first, when the pin is [S2_Pin], and
    does nothing for any other pin; it touches nothing but [effectMode], and
    four presses of S2 lead back to the same state. *)
Theorem Callback_cycles_modes S2_Pin pin a :
  0 ≤ effectMode a < EFFECT_COUNT →
  let a' := HAL_GPIO_EXTI_Callback S2_Pin pin a in
  effectMode a'
    = (if pin =? S2_Pin then (effectMode a + 1) `mod` EFFECT_COUNT
       else effectMode a) ∧
  0 ≤ effectMode a' < EFFECT_COUNT ∧
  (app_world a', night a', fade a', sky a', serpent a')
    = (app_world a, night a, fade a, sky a, serpent a) ∧
  Nat.iter 4 (HAL_GPIO_EXTI_Callback S2_Pin S2_Pin) a = a.
Proof.
  destruct a as [w m n f sk sn]. unfold EFFECT_COUNT. cbn [effectMode].
  intros Hm. cbv zeta.
  assert (m = 0 ∨ m = 1 ∨ m = 2 ∨ m = 3) as Hcases by lia.
  split; [|split; [|split]].
  - unfold HAL_GPIO_EXTI_Callback, EFFECT_COUNT. cbn [effectMode].
    destruct (pin =? S2_Pin); cbn [effectMode]; [|done].
    destruct_or!; subst m; reflexivity.
  - unfold HAL_GPIO_EXTI_Callback, EFFECT_COUNT. cbn [effectMode].
    destruct (pin =? S2_Pin); cbn [effectMode]; [|done].
    destruct_or!; subst m; repeat case_match; cbn [effectMode]; lia.
  - unfold HAL_GPIO_EXTI_Callback. by destruct (pin =? S2_Pin).
  - cbn [Nat.iter nat_rect]. unfold HAL_GPIO_EXTI_Callback.
    rewrite Z.eqb_refl. unfold EFFECT_COUNT.
    destruct_or!; subst m; reflexivity.
Qed.

(** X25.  Whatever the main loop and the button do, the application stays
    well formed: [app_ok] holds at start-up and is kept by every run of
    [example_app_run] and every call of the callback (for a [rand()] that
    returns non-negative values), so it holds after any sequence of
    them: the arrays keep their sizes, the sweeps stay on the row, the
    stars on the matrix, the snake's length between 4 and 16. *)
Theorem app_always_ok rnd S2_Pin (inputs : list input) :
  (∀ n, 0 ≤ rnd n) →
  (∀ a i, app_ok a → app_ok (app_step rnd S2_Pin a i)) ∧
  app_ok (foldl (app_step rnd S2_Pin) app_boot inputs).
Proof.
  intros Hrnd.
  assert (∀ a i, app_ok a → app_ok (app_step rnd S2_Pin a i)) as Hstep.
  { intros a [|pin] Hok; cbn [app_step].
    - by apply run_step_ok.
    - by apply callback_step_ok. }
  split; [exact Hstep|].
  apply (foldl_preserves app_ok); [apply app_boot_ok|].
  intros a i. apply Hstep.
Qed.

(** *** What tells an effect from the fallback *)

Lemma example_app_run_default rnd a :
  ¬ 0 ≤ effectMode a < EFFECT_COUNT →
  example_app_run rnd a = example_app_fallback a.
Proof.
  intros Hm. unfold example_app_run, EFFECT_COUNT, EFFECT_SIMPLE, EFFECT_GLOW,
    EFFECT_STARFIELD, EFFECT_SNAKE in *.
  destruct (Z.eqb_spec (effectMode a) 0); [lia|].
  destruct (Z.eqb_spec (effectMode a) 1); [lia|].
  destruct (Z.eqb_spec (effectMode a) 2); [lia|].
  destruct (Z.eqb_spec (effectMode a) 3); [lia|].
  reflexivity.
Qed.

Lemma fallback_dark a j :
  store_sized (drv (app_world a)) → 0 ≤ j < ICLED_LED_COUNT →
  read_back j (drv (app_world (example_app_fallback a))) = Some (0, 0, 0).
Proof.
  intros Hn Hj.
  change (drv (app_world (example_app_fallback a)))
    with (ICLED_Clear (drv (app_world a))).
  rewrite Clear_show_blackened, read_back_Show by done.
  unfold read_back, blackened. cbn [led_data].
  rewrite lookup_replicate_2 by (unfold ICLED_LED_COUNT in *; lia).
  reflexivity.
Qed.

Lemma not_fallback_by_delay a w' m n f sk sn k d :
  delays w' = delays (app_world a) ++ [(k, d)] → d ≠ 100 →
  App w' m n f sk sn ≠ example_app_fallback a.
Proof.
  intros Hd Hne Heq.
  apply (f_equal (λ x, delays (app_world x))) in Heq.
  change (delays w'
          = delays (app_world a)
            ++ [(length (events (ICLED_Clear (drv (app_world a)))), 100)]) in Heq.
  rewrite Hd in Heq. apply app_inj_tail in Heq as [_ Heq]. congruence.
Qed.

Lemma not_fallback_by_pixel a w' m n f sk sn j rgb :
  store_sized (drv (app_world a)) → 0 ≤ j < ICLED_LED_COUNT →
  read_back j (drv w') = Some rgb → rgb ≠ (0, 0, 0) →
  App w' m n f sk sn ≠ example_app_fallback a.
Proof.
  intros Hn Hj Hread Hne Heq.
  pose proof (fallback_dark a j Hn Hj) as Hdark.
  rewrite <- Heq in Hdark. cbn [app_world] in Hdark. congruence.
Qed.

Lemma not_fallback_by_statics a w' m n f sk' sn :
  (rand_used (app_world a) < rand_used w')%nat ∨ stars sk' ≠ stars (sky a) →
  App w' m n f sk' sn ≠ example_app_fallback a.
Proof.
  intros [Hlt | Hne] Heq.
  - apply (f_equal (λ x, rand_used (app_world x))) in Heq.
    change (rand_used w' = rand_used (app_world a)) in Heq. lia.
  - apply Hne. apply (f_equal (λ x, stars (sky x))) in Heq. exact Heq.
Qed.

(** The head of the colour-fade sweep is lit. *)
Lemma ColorFade_head b c s :
  store_sized s → 0 ≤ c ≤ 14 →
  read_back (7 * c) (ColorFade_draw b c s)
  = Some (to_uint8 ((b * 200) `quot` 255), b, 0).
Proof.
  intros Hn Hc. unfold ColorFade_draw.
  rewrite to_uint16_small by (unfold UINT16_MAX; lia).
  repeat case_match;
    (rewrite read_back_SetPixel;
     [ apply decide_True; lia
     | rewrite ?to_uint16_small by (unfold UINT16_MAX; lia); pixel_side
     | lia
     | unfold ICLED_LED_COUNT; lia ]).
Qed.

(** [rand()] is called for every dead star. *)
Lemma star_spawn_rand_mono rnd i acc :
  (rand_used acc.2 ≤ rand_used (star_spawn rnd i acc).2)%nat.
Proof.
  unfold star_spawn, rand. repeat case_match; cbn [fst snd rand_used]; lia.
Qed.

Lemma star_spawn_rand_dead rnd i acc :
  star_age (star_at i acc.1) = 0 →
  (rand_used acc.2 < rand_used (star_spawn rnd i acc).2)%nat.
Proof.
  intros Hage. unfold star_spawn. rewrite Hage. cbn [Z.eqb].
  unfold rand. case_match; cbn [fst snd rand_used]; lia.
Qed.

Lemma foldl_head {A B} (f : A → B → A) a x l :
  foldl f a (x :: l) = foldl f (f a x) l.
Proof. reflexivity. Qed.

Lemma spawn_loop_rand rnd l w :
  star_age (star_at 0 l) = 0 →
  (rand_used w < rand_used (for_up 0 MAX_STARS (star_spawn rnd) (l, w)).2)%nat.
Proof.
  intros Hage. unfold for_up.
  rewrite Z.sub_0_r. unfold MAX_STARS. rewrite seqZ_cons by lia.
  rewrite foldl_head.
  generalize (seqZ (Z.succ 0) (Z.pred 10)). intros rest.
  pose proof (star_spawn_rand_dead rnd 0 (l, w) Hage) as H0.
  cbn [fst snd] in H0.
  generalize dependent (star_spawn rnd 0 (l, w)). intros acc0 H0.
  apply (foldl_preserves (λ acc, (rand_used w < rand_used acc.2)%nat)).
  - exact H0.
  - intros acc i Hacc. pose proof (star_spawn_rand_mono rnd i acc). lia.
Qed.

Lemma spawn_loop_length rnd l w :
  length (for_up 0 MAX_STARS (star_spawn rnd) (l, w)).1 = length l.
Proof.
  unfold for_up. apply (foldl_preserves (λ acc, length acc.1 = length l)); [done|].
  intros acc i Hacc. by rewrite star_spawn_length.
Qed.

Lemma drv_frame d s w : drv (HAL_Delay d (set_drv s w)) = s.
Proof. reflexivity. Qed.

Lemma rand_used_frame d s w : rand_used (HAL_Delay d (set_drv s w)) = rand_used w.
Proof. reflexivity. Qed.

Lemma Starfield_world_eq rnd b d st w :
  (ICLED_StarfieldEffect rnd b d st w).2
  = HAL_Delay d
      (set_drv
         (ICLED_Show
            (for_up 0 MAX_STARS (star_render b)
               ((for_up 0 MAX_STARS (star_spawn rnd)
                   (stars st, set_drv (Starfield_first b st w) w)).1,
                drv (for_up 0 MAX_STARS (star_spawn rnd)
                       (stars st, set_drv (Starfield_first b st w) w)).2)).2)
         (for_up 0 MAX_STARS (star_spawn rnd)
            (stars st, set_drv (Starfield_first b st w) w)).2).
Proof. reflexivity. Qed.

Lemma Starfield_rand_used rnd b d st w :
  rand_used (ICLED_StarfieldEffect rnd b d st w).2
  = rand_used (for_up 0 MAX_STARS (star_spawn rnd)
                 (stars st, set_drv (Starfield_first b st w) w)).2.
Proof. rewrite Starfield_world_eq. apply rand_used_frame. Qed.

(** A call of [ICLED_StarfieldEffect] leaves a trace in what it keeps:
    the first star is dead and [rand()] is called for it, or it is alive
    and ages. *)
Lemma Starfield_trace rnd b d st w :
  starfield_ok st →
  (rand_used w < rand_used (ICLED_StarfieldEffect rnd b d st w).2)%nat ∨
  stars (ICLED_StarfieldEffect rnd b d st w).1 ≠ stars st.
Proof.
  intros (Hlen & Hok & _).
  destruct (decide (star_age (star_at 0 (stars st)) = 0)) as [Hdead | Halive].
  - left. rewrite Starfield_rand_used.
    exact (spawn_loop_rand rnd (stars st) (set_drv (Starfield_first b st w) w)
             Hdead).
  - right. intros Heq. apply (f_equal (star_at 0)) in Heq.
    rewrite Starfield_stars in Heq.
    assert (star_ok (star_at 0 (stars st))) as (_ & Hage & _).
    { apply star_at_ok; [done|]. rewrite Hlen. unfold MAX_STARS. lia. }
    rewrite render_loop_star in Heq.
    + rewrite spawn_loop_alive in Heq by done.
      apply (f_equal star_age) in Heq. cbn [star_age] in Heq. lia.
    + by rewrite spawn_loop_length.
    + unfold MAX_STARS. lia.
    + rewrite spawn_loop_alive by done. unfold UINT8_MAX. lia.
Qed.

(** The run of each mode is the call of its effect. *)
Lemma run_simple rnd a :
  effectMode a = EFFECT_SIMPLE →
  example_app_run rnd a
  = App (ICLED_NightRideDemo 40 80 (night a) (app_world a)).2 (effectMode a)
        (ICLED_NightRideDemo 40 80 (night a) (app_world a)).1
        (fade a) (sky a) (serpent a).
Proof. intros Hm. unfold example_app_run. rewrite Hm. reflexivity. Qed.

Lemma run_glow rnd a :
  effectMode a = EFFECT_GLOW →
  example_app_run rnd a
  = App (ICLED_KnightRiderColorFade 40 100 (fade a) (app_world a)).2
        (effectMode a) (night a)
        (ICLED_KnightRiderColorFade 40 100 (fade a) (app_world a)).1
        (sky a) (serpent a).
Proof. intros Hm. unfold example_app_run. rewrite Hm. reflexivity. Qed.

Lemma run_starfield rnd a :
  effectMode a = EFFECT_STARFIELD →
  example_app_run rnd a
  = App (ICLED_StarfieldEffect rnd 20 100 (sky a) (app_world a)).2
        (effectMode a) (night a) (fade a)
        (ICLED_StarfieldEffect rnd 20 100 (sky a) (app_world a)).1
        (serpent a).
Proof. intros Hm. unfold example_app_run. rewrite Hm. reflexivity. Qed.

Lemma run_snake rnd a :
  effectMode a = EFFECT_SNAKE →
  example_app_run rnd a
  = App (ICLED_SnakePattern 40 60 (serpent a) (app_world a)).2
        (effectMode a) (night a) (fade a) (sky a)
        (ICLED_SnakePattern 40 60 (serpent a) (app_world a)).1.
Proof. intros Hm. unfold example_app_run. rewrite Hm. reflexivity. Qed.

(** What a run leaves to be observed. *)
Lemma run_frame_observed rnd a :
  app_ok a →
  let w := app_world a in
  let w' := app_world (example_app_run rnd a) in
  effectMode (example_app_run rnd a) = effectMode a ∧
  delays w'
    = delays w ++ [(length (events (drv w')), frame_delay (effectMode a))] ∧
  hal_calls (new_events (drv w) (drv w'))
    = (if (effectMode a =? EFFECT_STARFIELD) && (init (sky a) =? 0)
       then [EvStopDMA; EvStartDMA pwm_base ICLED_BUFFER_SIZE;
             EvStopDMA; EvStartDMA pwm_base ICLED_BUFFER_SIZE]
       else [EvStopDMA; EvStartDMA pwm_base ICLED_BUFFER_SIZE]) ∧
  pwm_buffer (drv w') = frame_codes (led_data (drv w')).
Proof.
  destruct a as [w m n f sk sn].
  unfold app_ok, example_app_run, EFFECT_COUNT.
  cbn [app_world effectMode night fade sky serpent].
  intros (Hst & Hm & Hn & Hf & Hsk & Hsn).
  assert (m = 0 ∨ m = 1 ∨ m = 2 ∨ m = 3) as Hcases by lia.
  destruct_or!; subst m;
    unfold EFFECT_SIMPLE, EFFECT_GLOW, EFFECT_STARFIELD, EFFECT_SNAKE;
    cbn [Z.eqb Pos.eqb andb]; cbn [app_world effectMode night fade sky serpent].
  - unfold ICLED_NightRideDemo. cbn [fst snd].
    destruct (frame_tail _ w _ 80
                (NightRide_draw_painted 40 (col n) (drv w) Hst) eq_refl)
      as (_ & Hev & Hdel & Hbuf).
    split_and!; [done..| |done].
    rewrite (new_events_app _ _ _ Hev). apply hal_calls_show_log.
  - unfold ICLED_KnightRiderColorFade. cbn [fst snd].
    assert (0 ≤ 40 ≤ UINT8_MAX) as Hb by done.
    destruct (frame_tail _ w _ 100
                (ColorFade_draw_painted 40 (col f) (drv w) Hb Hst) eq_refl)
      as (_ & Hev & Hdel & Hbuf).
    split_and!; [done..| |done].
    rewrite (new_events_app _ _ _ Hev). apply hal_calls_show_log.
  - assert (0 ≤ 20 ≤ UINT8_MAX) as Hb by done.
    destruct (Starfield_world rnd 20 100 sk w Hb Hst)
      as (_ & Hdel & Hbuf & Hhal).
    split_and!; done.
  - unfold ICLED_SnakePattern. cbn [fst snd].
    destruct (frame_tail _ w _ 60
                (snake_draw_painted 40 sn (drv w) Hst) eq_refl)
      as (_ & Hev & Hdel & Hbuf).
    split_and!; [done..| |done].
    rewrite (new_events_app _ _ _ Hev). apply hal_calls_show_log.
Qed.

(** No run from a well-formed state is a run of the fallback. *)
Lemma run_not_fallback rnd a :
  app_ok a → example_app_run rnd a ≠ example_app_fallback a.
Proof.
  intros (Hst & Hm & Hn & Hf & Hsk & Hsn). unfold EFFECT_COUNT in Hm.
  assert (effectMode a = 0 ∨ effectMode a = 1 ∨ effectMode a = 2 ∨
          effectMode a = 3) as Hcases by lia.
  destruct_or!.
  - rewrite run_simple by done. unfold ICLED_NightRideDemo. cbn [fst snd].
    destruct (frame_tail _ (app_world a) _ 80
                (NightRide_draw_painted 40 (col (night a)) _ Hst) eq_refl)
      as (_ & _ & Hdel & _).
    apply (not_fallback_by_delay a _ _ _ _ _ _ _ 80 Hdel). lia.
  - rewrite run_glow by done. unfold ICLED_KnightRiderColorFade. cbn [fst snd].
    assert (0 ≤ col (fade a) ≤ 14) as Hc by (unfold sweep_ok in Hf; lia).
    apply (not_fallback_by_pixel a _ _ _ _ _ _
             (7 * col (fade a)) (to_uint8 ((40 * 200) `quot` 255), 40, 0)).
    + apply Hst.
    + unfold ICLED_LED_COUNT. lia.
    + rewrite drv_frame, read_back_Show.
      apply ColorFade_head; [apply Hst|exact Hc].
    + intros Heq. discriminate Heq.
  - rewrite run_starfield by done. apply not_fallback_by_statics.
    exact (Starfield_trace rnd 20 100 (sky a) (app_world a) Hsk).
  - rewrite run_snake by done. unfold ICLED_SnakePattern. cbn [fst snd].
    destruct (frame_tail _ (app_world a) _ 60
                (snake_draw_painted 40 (serpent a) _ Hst) eq_refl)
      as (_ & _ & Hdel & _).
    apply (not_fallback_by_delay a _ _ _ _ _ _ _ 60 Hdel). lia.
Qed.

(** X26.  One run of [example_app_run] from a well-formed state runs
    exactly the effect of the current mode and never the fallback
    [ICLED_Clear]: the mode is left alone, the hardware is stopped and
    started once (twice in the starfield's first call, which also shows
    the background), then [HAL_Delay] is called once, after everything the
    driver did, with the delay of the mode; the timing buffer ends up
    holding the encoding of the pixel store; the new state is the one the
    effect of the mode returns, with the arguments [example_app_run] passes
    to it, the statics of the other three effects being left alone; and
    this state is never the one the fallback would have given, from which
    it differs in the delay (80 or 60 ms against 100), in the lit head of
    the colour fade, or in what the starfield keeps (a [rand()] value is
    used up or a star has aged). *)
Theorem example_app_run_frame rnd a :
  app_ok a →
  let w := app_world a in
  let w' := app_world (example_app_run rnd a) in
  effectMode (example_app_run rnd a) = effectMode a ∧
  delays w'
    = delays w ++ [(length (events (drv w')), frame_delay (effectMode a))] ∧
  hal_calls (new_events (drv w) (drv w'))
    = (if (effectMode a =? EFFECT_STARFIELD) && (init (sky a) =? 0)
       then [EvStopDMA; EvStartDMA pwm_base ICLED_BUFFER_SIZE;
             EvStopDMA; EvStartDMA pwm_base ICLED_BUFFER_SIZE]
       else [EvStopDMA; EvStartDMA pwm_base ICLED_BUFFER_SIZE]) ∧
  pwm_buffer (drv w') = frame_codes (led_data (drv w')) ∧
  (effectMode a = EFFECT_SIMPLE →
   example_app_run rnd a
   = App (ICLED_NightRideDemo 40 80 (night a) w).2 (effectMode a)
         (ICLED_NightRideDemo 40 80 (night a) w).1
         (fade a) (sky a) (serpent a)) ∧
  (effectMode a = EFFECT_GLOW →
   example_app_run rnd a
   = App (ICLED_KnightRiderColorFade 40 100 (fade a) w).2 (effectMode a)
         (night a) (ICLED_KnightRiderColorFade 40 100 (fade a) w).1
         (sky a) (serpent a)) ∧
  (effectMode a = EFFECT_STARFIELD →
   example_app_run rnd a
   = App (ICLED_StarfieldEffect rnd 20 100 (sky a) w).2 (effectMode a)
         (night a) (fade a) (ICLED_StarfieldEffect rnd 20 100 (sky a) w).1
         (serpent a)) ∧
  (effectMode a = EFFECT_SNAKE →
   example_app_run rnd a
   = App (ICLED_SnakePattern 40 60 (serpent a) w).2 (effectMode a)
         (night a) (fade a) (sky a)
         (ICLED_SnakePattern 40 60 (serpent a) w).1) ∧
  example_app_run rnd a ≠ example_app_fallback a.
Proof.
  intros Hok. cbv zeta.
  destruct (run_frame_observed rnd a Hok) as (Hmode & Hdel & Hhal & Hbuf).
  split_and!.
  - exact Hmode.
  - exact Hdel.
  - exact Hhal.
  - exact Hbuf.
  - apply run_simple.
  - apply run_glow.
  - apply run_starfield.
  - apply run_snake.
  - by apply run_not_fallback.
Qed.

End App.

(** * Concrete runs of the further properties *)

Section MoreRuns.

Lemma Show_buffer_from_store_witness :
  store_sized demo_state ∧ buffer_sized demo_state ∧
  buffer_sized stale_demo_state ∧
  led_data stale_demo_state = led_data demo_state ∧
  pwm_buffer (ICLED_Show stale_demo_state) = pwm_buffer (ICLED_Show demo_state).
Proof.
  assert (store_sized demo_state) as Hn by (vm_compute; reflexivity).
  assert (buffer_sized demo_state) as Hb by (vm_compute; reflexivity).
  assert (buffer_sized stale_demo_state) as Hb' by (vm_compute; reflexivity).
  assert (led_data stale_demo_state = led_data demo_state) as Hl by reflexivity.
  split; [exact Hn|]. split; [exact Hb|]. split; [exact Hb'|]. split; [exact Hl|].
  exact (proj1 (Show_buffer_from_store demo_state stale_demo_state Hn Hb Hb' Hl)).
Defined.

Lemma Show_slot_values_witness :
  store_sized demo_state ∧ buffer_sized demo_state ∧
  pwm_buffer (ICLED_Show demo_state) !! 15%nat = Some 26 ∧
  ((15 < Z.to_nat ICLED_TIMING_BITS)%nat → 26 = ICLED_PWM_0 ∨ 26 = ICLED_PWM_1) ∧
  0 ≤ 26 ≤ UINT16_MAX.
Proof.
  assert (store_sized demo_state) as Hn by (vm_compute; reflexivity).
  assert (buffer_sized demo_state) as Hb by (vm_compute; reflexivity).
  assert (pwm_buffer (ICLED_Show demo_state) !! 15%nat = Some 26) as Hk
    by (vm_compute; reflexivity).
  split; [exact Hn|]. split; [exact Hb|]. split; [exact Hk|].
  pose proof (Show_slot_values demo_state 15 26 Hn Hb Hk) as (H1 & _ & H3).
  split; [exact H1|exact H3].
Defined.

Lemma SetPixel_commute_witness :
  0 ≤ 1 ∧ 0 ≤ 2 ∧ 1 ≠ 2 ∧
  ICLED_SetPixel 1 10 20 30 (ICLED_SetPixel 2 40 50 60 demo_state)
  = ICLED_SetPixel 2 40 50 60 (ICLED_SetPixel 1 10 20 30 demo_state).
Proof.
  assert (0 ≤ 1) as H1 by lia. assert (0 ≤ 2) as H2 by lia.
  assert (1 ≠ 2) as H3 by lia.
  split; [exact H1|]. split; [exact H2|]. split; [exact H3|].
  exact (SetPixel_commute 1 2 10 20 30 40 50 60 demo_state H1 H2 H3).
Defined.

Lemma demo_state_ok : state_ok demo_state.
Proof.
  split_and!; [vm_compute; reflexivity..|].
  apply (bool_decide_unpack _). vm_compute. exact I.
Defined.

Lemma driver_keeps_state_ok_witness :
  state_ok demo_state ∧
  state_ok (ICLED_Show demo_state) ∧ state_ok (ICLED_Init demo_state).
Proof.
  split; [exact demo_state_ok|].
  pose proof (driver_keeps_state_ok demo_state demo_state_ok)
    as (H1 & _ & H3 & _).
  split; [exact H1|exact H3].
Defined.

Lemma Show_buffer_determines_store_witness :
  state_ok demo_state ∧ state_ok (ICLED_SetPixel 200 1 2 3 demo_state) ∧
  pwm_buffer (ICLED_Show demo_state)
    = pwm_buffer (ICLED_Show (ICLED_SetPixel 200 1 2 3 demo_state)) ∧
  led_data demo_state = led_data (ICLED_SetPixel 200 1 2 3 demo_state).
Proof.
  assert (state_ok (ICLED_SetPixel 200 1 2 3 demo_state)) as Hok'.
  { split_and!; [vm_compute; reflexivity..|].
    apply (bool_decide_unpack _). vm_compute. exact I. }
  assert (pwm_buffer (ICLED_Show demo_state)
          = pwm_buffer (ICLED_Show (ICLED_SetPixel 200 1 2 3 demo_state))) as Heq
    by reflexivity.
  split; [exact demo_state_ok|]. split; [exact Hok'|]. split; [exact Heq|].
  exact (Show_buffer_determines_store demo_state
           (ICLED_SetPixel 200 1 2 3 demo_state) demo_state_ok Hok' Heq).
Defined.

Lemma SetPixel_Show_locality_witness :
  store_sized demo_state ∧ buffer_sized demo_state ∧
  0 ≤ 3 < ICLED_LED_COUNT ∧
  (0 < 24 * Z.to_nat 3 ∨ 24 * Z.to_nat 3 + 24 ≤ 0)%nat ∧
  pwm_buffer (ICLED_Show (ICLED_SetPixel 3 255 255 255 demo_state)) !! 0%nat
  = pwm_buffer (ICLED_Show demo_state) !! 0%nat.
Proof.
  assert (store_sized demo_state) as Hn by (vm_compute; reflexivity).
  assert (buffer_sized demo_state) as Hb by (vm_compute; reflexivity).
  assert (0 ≤ 3 < ICLED_LED_COUNT) as Hi by (unfold ICLED_LED_COUNT; lia).
  assert (0 < 24 * Z.to_nat 3 ∨ 24 * Z.to_nat 3 + 24 ≤ 0)%nat as Hk by lia.
  split; [exact Hn|]. split; [exact Hb|]. split; [exact Hi|]. split; [exact Hk|].
  exact (SetPixel_Show_locality demo_state 3 255 255 255 0 Hn Hb Hi Hk).
Defined.

Lemma Clear_dark_frame_witness :
  store_sized demo_state ∧ buffer_sized demo_state ∧
  pwm_buffer (ICLED_Clear demo_state)
    = replicate (Z.to_nat ICLED_TIMING_BITS) ICLED_PWM_0
      ++ replicate (Z.to_nat ICLED_RESET_SLOTS) 0.
Proof.
  assert (store_sized demo_state) as Hn by (vm_compute; reflexivity).
  assert (buffer_sized demo_state) as Hb by (vm_compute; reflexivity).
  split; [exact Hn|]. split; [exact Hb|].
  exact (proj1 (Clear_dark_frame demo_state Hn Hb)).
Defined.

Lemma SetPixel_then_Show_witness :
  store_sized demo_state ∧ buffer_sized demo_state ∧
  0 ≤ 3 < ICLED_LED_COUNT ∧ 0 ≤ 1 < 3 ∧ 0 ≤ 7 ≤ 7 ∧
  pwm_buffer (ICLED_Show (ICLED_SetPixel 3 0x80 0 0 demo_state))
    !! Z.to_nat (3 * 24 + 1 * 8 + (7 - 7))
  = Some (if Z.testbit (grb_byte 1 (0x80, 0, 0)) 7
          then ICLED_PWM_1 else ICLED_PWM_0).
Proof.
  assert (store_sized demo_state) as Hn by (vm_compute; reflexivity).
  assert (buffer_sized demo_state) as Hb by (vm_compute; reflexivity).
  assert (0 ≤ 3 < ICLED_LED_COUNT) as Hi by (unfold ICLED_LED_COUNT; lia).
  assert (0 ≤ 1 < 3) as Hc by lia. assert (0 ≤ 7 ≤ 7) as Hbit by lia.
  split; [exact Hn|]. split; [exact Hb|]. split; [exact Hi|].
  split; [exact Hc|]. split; [exact Hbit|].
  exact (SetPixel_then_Show demo_state 3 0x80 0 0 1 7 Hn Hb Hi Hc Hbit).
Defined.

Lemma NightRide_frame_witness :
  store_sized (drv demo_world) ∧ 0 ≤ 40 ≤ UINT8_MAX ∧
  0 ≤ col (Sweep 1 2) ≤ 14 ∧ 0 ≤ 3 ≤ 14 ∧
  read_back (7 * 3) (drv (ICLED_NightRideDemo 40 80 (Sweep 1 2) demo_world).2)
  = Some (if Z.abs (3 - col (Sweep 1 2)) =? 0
          then to_uint8 ((40 * 255) `quot` 100)
          else if Z.abs (3 - col (Sweep 1 2)) =? 1 then 40
          else if Z.abs (3 - col (Sweep 1 2)) =? 2 then (40 * 40) `quot` 100
          else 0,
          0, 0).
Proof.
  assert (store_sized (drv demo_world)) as Hn by (vm_compute; reflexivity).
  assert (0 ≤ 40 ≤ UINT8_MAX) as Hb by (unfold UINT8_MAX; lia).
  assert (0 ≤ col (Sweep 1 2) ≤ 14) as Hc by (cbn; lia).
  assert (0 ≤ 3 ≤ 14) as Hj by lia.
  split; [exact Hn|]. split; [exact Hb|]. split; [exact Hc|]. split; [exact Hj|].
  exact (NightRide_frame 40 80 (Sweep 1 2) demo_world 3 Hn Hb Hc Hj).
Defined.

Lemma NightRide_other_rows_witness :
  store_sized (drv demo_world) ∧ 0 ≤ col (Sweep 1 2) ≤ 14 ∧
  0 ≤ 104 < ICLED_LED_COUNT ∧ 104 `mod` 7 ≠ 0 ∧
  read_back 104 (drv (ICLED_NightRideDemo 40 80 (Sweep 1 2) demo_world).2)
  = read_back 104 (drv demo_world).
Proof.
  assert (store_sized (drv demo_world)) as Hn by (vm_compute; reflexivity).
  assert (0 ≤ col (Sweep 1 2) ≤ 14) as Hc by (cbn; lia).
  assert (0 ≤ 104 < ICLED_LED_COUNT) as Hi by (unfold ICLED_LED_COUNT; lia).
  assert (104 `mod` 7 ≠ 0) as Hrow by (vm_compute; discriminate).
  split; [exact Hn|]. split; [exact Hc|]. split; [exact Hi|]. split; [exact Hrow|].
  exact (NightRide_other_rows 40 80 (Sweep 1 2) demo_world 104 Hn Hc Hi Hrow).
Defined.

Lemma ColorFade_other_rows_witness :
  store_sized (drv demo_world) ∧ 0 ≤ col (Sweep 1 2) ≤ 14 ∧
  0 ≤ 104 < ICLED_LED_COUNT ∧ 104 `mod` 7 ≠ 0 ∧
  read_back 104 (drv (ICLED_KnightRiderColorFade 40 100 (Sweep 1 2) demo_world).2)
  = read_back 104 (drv demo_world).
Proof.
  assert (store_sized (drv demo_world)) as Hn by (vm_compute; reflexivity).
  assert (0 ≤ col (Sweep 1 2) ≤ 14) as Hc by (cbn; lia).
  assert (0 ≤ 104 < ICLED_LED_COUNT) as Hi by (unfold ICLED_LED_COUNT; lia).
  assert (104 `mod` 7 ≠ 0) as Hrow by (vm_compute; discriminate).
  split; [exact Hn|]. split; [exact Hc|]. split; [exact Hi|]. split; [exact Hrow|].
  exact (ColorFade_other_rows 40 100 (Sweep 1 2) demo_world 104 Hn Hc Hi Hrow).
Defined.

Lemma NightRide_head_level_witness :
  store_sized (drv demo_world) ∧ 0 ≤ 101 ≤ UINT8_MAX ∧
  0 ≤ col (Sweep 1 2) ≤ 14 ∧
  read_back (7 * col (Sweep 1 2))
    (drv (ICLED_NightRideDemo 101 80 (Sweep 1 2) demo_world).2)
  = Some ((101 * 255) `quot` 100
          - (if 101 <=? 100 then 0 else if 101 <=? 200 then 256 else 512),
          0, 0).
Proof.
  assert (store_sized (drv demo_world)) as Hn by (vm_compute; reflexivity).
  assert (0 ≤ 101 ≤ UINT8_MAX) as Hb by (unfold UINT8_MAX; lia).
  assert (0 ≤ col (Sweep 1 2) ≤ 14) as Hc by (cbn; lia).
  split; [exact Hn|]. split; [exact Hb|]. split; [exact Hc|].
  exact (NightRide_head_level 101 80 (Sweep 1 2) demo_world Hn Hb Hc).
Defined.

Lemma ColorFade_frame_witness :
  store_sized (drv demo_world) ∧ 0 ≤ 40 ≤ UINT8_MAX ∧
  0 ≤ col (Sweep 1 2) ≤ 14 ∧ 0 ≤ 3 ≤ 14 ∧
  read_back (7 * 3)
    (drv (ICLED_KnightRiderColorFade 40 100 (Sweep 1 2) demo_world).2)
  = Some (if Z.abs (3 - col (Sweep 1 2)) =? 0
          then ((40 * 200) `quot` 255, 40, 0)
          else if Z.abs (3 - col (Sweep 1 2)) =? 1
          then ((40 * 230) `quot` 255, (40 * 150) `quot` 255, 0)
          else if Z.abs (3 - col (Sweep 1 2)) =? 2
          then ((40 * 150) `quot` 255, (40 * 50) `quot` 255, 0)
          else if Z.abs (3 - col (Sweep 1 2)) =? 3
          then ((40 * 64) `quot` 255, 0, 0)
          else (0, 0, 0)).
Proof.
  assert (store_sized (drv demo_world)) as Hn by (vm_compute; reflexivity).
  assert (0 ≤ 40 ≤ UINT8_MAX) as Hb by (unfold UINT8_MAX; lia).
  assert (0 ≤ col (Sweep 1 2) ≤ 14) as Hc by (cbn; lia).
  assert (0 ≤ 3 ≤ 14) as Hj by lia.
  split; [exact Hn|]. split; [exact Hb|]. split; [exact Hc|]. split; [exact Hj|].
  exact (ColorFade_frame 40 100 (Sweep 1 2) demo_world 3 Hn Hb Hc Hj).
Defined.

Lemma sweep_advance_ok_witness :
  sweep_ok (Sweep 1 13) ∧ sweep_ok (sweep_advance (Sweep 1 13)) ∧
  col (sweep_advance (Sweep 1 13)) = col (Sweep 1 13) + direction (Sweep 1 13).
Proof.
  assert (sweep_ok (Sweep 1 13)) as Hok by (left; cbn; lia).
  split; [exact Hok|].
  pose proof (sweep_advance_ok (Sweep 1 13) Hok) as (H1 & H2 & _).
  split; [exact H1|exact H2].
Defined.

Lemma sweep_period_witness :
  sweep_ok (Sweep (-1) 9) ∧ Nat.iter 28 sweep_advance (Sweep (-1) 9) = Sweep (-1) 9.
Proof.
  assert (sweep_ok (Sweep (-1) 9)) as Hok by (right; cbn; lia).
  split; [exact Hok|]. exact (sweep_period (Sweep (-1) 9) Hok).
Defined.

Lemma snake_index_bijective_witness :
  0 ≤ 2 < DIR_MODE_COUNT ∧ 0 ≤ 7 < snake_total ∧ 0 ≤ 22 < snake_total ∧
  0 ≤ snake_index 2 7 < ICLED_LED_COUNT ∧
  (snake_index 2 7 = snake_index 2 22 → 7 = 22).
Proof.
  assert (0 ≤ 2 < DIR_MODE_COUNT) as Hm by (unfold DIR_MODE_COUNT; lia).
  assert (0 ≤ 7 < snake_total) as H7 by (change snake_total with 105; lia).
  assert (0 ≤ 22 < snake_total) as H22 by (change snake_total with 105; lia).
  split; [exact Hm|]. split; [exact H7|]. split; [exact H22|].
  exact (snake_index_bijective 2 7 22 Hm H7 H22).
Defined.

Lemma snake_boot_ok : snake_ok snake_boot.
Proof.
  unfold snake_ok, snake_boot, UINT16_MAX, DIR_MODE_COUNT, DIR_HORIZONTAL.
  cbn [tick headIndex snakeLength growing mode].
  change snake_total with 105. lia.
Defined.

Lemma late_snake_ok : snake_ok late_snake.
Proof.
  unfold snake_ok, late_snake, UINT16_MAX, DIR_MODE_COUNT, DIR_HORIZONTAL.
  cbn [tick headIndex snakeLength growing mode].
  change snake_total with 105. lia.
Defined.

Lemma Snake_frame_witness :
  store_sized (drv demo_world) ∧ snake_ok snake_boot ∧ 0 ≤ 40 ≤ UINT8_MAX ∧
  (0 ≤ 0 < snakeLength snake_boot → 0 ≤ headIndex snake_boot - 0 < snake_total →
   read_back (snake_index (mode snake_boot) (headIndex snake_boot - 0))
     (drv (ICLED_SnakePattern 40 60 snake_boot demo_world).2)
   = Some (0, 40 - 0 * (40 `quot` snakeLength snake_boot), 0) ∧
   0 ≤ 40 - 0 * (40 `quot` snakeLength snake_boot) ≤ 40).
Proof.
  assert (store_sized (drv demo_world)) as Hn by (vm_compute; reflexivity).
  assert (0 ≤ 40 ≤ UINT8_MAX) as Hb by (unfold UINT8_MAX; lia).
  split; [exact Hn|]. split; [exact snake_boot_ok|]. split; [exact Hb|].
  exact (proj1 (Snake_frame 40 60 snake_boot demo_world Hn snake_boot_ok Hb) 0).
Defined.

Lemma snake_advance_ok_witness :
  snake_ok late_snake ∧ snake_ok (snake_advance late_snake).
Proof.
  split; [exact late_snake_ok|]. exact (snake_advance_ok late_snake late_snake_ok).
Defined.

Lemma snake_mode_interval_witness :
  snake_ok late_snake ∧ tick late_snake `rem` 160 = 0 ∧
  ((95 < (if (tick late_snake =? 65440)%Z then 96 else 160))%nat →
   mode (Nat.iter 95 snake_advance late_snake) = mode late_snake) ∧
  mode (Nat.iter (if tick late_snake =? 65440 then 96%nat else 160%nat)
          snake_advance late_snake)
  = (mode late_snake + 1) `rem` DIR_MODE_COUNT.
Proof.
  assert (tick late_snake `rem` 160 = 0) as Ht by (vm_compute; reflexivity).
  split; [exact late_snake_ok|]. split; [exact Ht|].
  exact (snake_mode_interval late_snake 95 late_snake_ok Ht).
Defined.

Lemma demo_rnd_nonneg : ∀ n, 0 ≤ demo_rnd n.
Proof. intros n. unfold demo_rnd. lia. Defined.

Lemma demo_sky_ok : starfield_ok demo_sky.
Proof.
  split_and!; [reflexivity| |by right].
  apply (bool_decide_unpack _). vm_compute. exact I.
Defined.

Lemma Starfield_keeps_ok_witness :
  (∀ n, 0 ≤ demo_rnd n) ∧ starfield_ok demo_sky ∧ store_sized (drv demo_world) ∧
  starfield_ok (ICLED_StarfieldEffect demo_rnd 20 100 demo_sky demo_world).1.
Proof.
  assert (store_sized (drv demo_world)) as Hn by (vm_compute; reflexivity).
  split; [exact demo_rnd_nonneg|]. split; [exact demo_sky_ok|]. split; [exact Hn|].
  exact (proj1 (Starfield_keeps_ok demo_rnd 20 100 demo_sky demo_world
                  demo_rnd_nonneg demo_sky_ok Hn)).
Defined.

Lemma Starfield_palette_witness :
  (∀ k, 0 ≤ demo_rnd k) ∧ starfield_ok starfield_boot ∧
  store_sized (drv demo_world) ∧ init starfield_boot = 0 ∧
  all_in_palette 20
    (drv (Starfield_calls demo_rnd 20 100 3 starfield_boot demo_world).2).
Proof.
  assert (store_sized (drv demo_world)) as Hn by (vm_compute; reflexivity).
  assert (starfield_ok starfield_boot) as Hok.
  { split_and!; [reflexivity| |by left].
    apply (bool_decide_unpack _). vm_compute. exact I. }
  split; [exact demo_rnd_nonneg|]. split; [exact Hok|]. split; [exact Hn|].
  split; [reflexivity|].
  exact (Starfield_palette demo_rnd 20 100 starfield_boot demo_world 2
           demo_rnd_nonneg Hok Hn eq_refl).
Defined.

Lemma Starfield_star_ages_witness :
  starfield_ok demo_sky ∧ 0 ≤ 0 < MAX_STARS ∧
  0 < star_age (star_at 0 (stars demo_sky)) ∧
  star_at 0 (stars (ICLED_StarfieldEffect demo_rnd 20 100 demo_sky demo_world).1)
  = MkStar (star_index (star_at 0 (stars demo_sky)))
           (star_age (star_at 0 (stars demo_sky)) - 1)
           (star_color (star_at 0 (stars demo_sky))).
Proof.
  assert (0 ≤ 0 < MAX_STARS) as Hi by (unfold MAX_STARS; lia).
  assert (0 < star_age (star_at 0 (stars demo_sky))) as Hage
    by (vm_compute; reflexivity).
  split; [exact demo_sky_ok|]. split; [exact Hi|]. split; [exact Hage|].
  exact (Starfield_star_ages demo_rnd 20 100 demo_sky demo_world 0
           demo_sky_ok Hi Hage).
Defined.

Lemma Callback_cycles_modes_witness :
  0 ≤ effectMode app_boot < EFFECT_COUNT ∧
  effectMode (HAL_GPIO_EXTI_Callback 32 32 app_boot)
    = (if 32 =? 32 then (effectMode app_boot + 1) `mod` EFFECT_COUNT
       else effectMode app_boot) ∧
  Nat.iter 4 (HAL_GPIO_EXTI_Callback 32 32) app_boot = app_boot.
Proof.
  assert (0 ≤ effectMode app_boot < EFFECT_COUNT) as Hm
    by (vm_compute; split; [discriminate|reflexivity]).
  split; [exact Hm|].
  pose proof (Callback_cycles_modes 32 32 app_boot Hm) as (H1 & _ & _ & H4).
  split; [exact H1|exact H4].
Defined.

Lemma app_always_ok_witness :
  (∀ n, 0 ≤ demo_rnd n) ∧
  app_ok (foldl (app_step demo_rnd 32) app_boot
            [Frame; Interrupt 32; Frame; Interrupt 1; Frame]).
Proof.
  split; [exact demo_rnd_nonneg|].
  exact (proj2 (app_always_ok demo_rnd 32
                  [Frame; Interrupt 32; Frame; Interrupt 1; Frame]
                  demo_rnd_nonneg)).
Defined.

Lemma example_app_run_frame_witness :
  app_ok glow_app ∧
  effectMode (example_app_run demo_rnd glow_app) = effectMode glow_app ∧
  delays (app_world (example_app_run demo_rnd glow_app))
    = delays (app_world glow_app)
      ++ [(length (events (drv (app_world (example_app_run demo_rnd glow_app)))),
           frame_delay (effectMode glow_app))] ∧
  example_app_run demo_rnd glow_app
    = App (ICLED_KnightRiderColorFade 40 100 (fade glow_app)
             (app_world glow_app)).2
          (effectMode glow_app) (night glow_app)
          (ICLED_KnightRiderColorFade 40 100 (fade glow_app)
             (app_world glow_app)).1
          (sky glow_app) (serpent glow_app) ∧
  example_app_run demo_rnd glow_app ≠ example_app_fallback glow_app.
Proof.
  assert (app_ok glow_app) as Hok
    by exact (callback_step_ok 13 13 app_boot app_boot_ok).
  split; [exact Hok|].
  pose proof (example_app_run_frame demo_rnd glow_app Hok)
    as (H1 & H2 & _ & _ & _ & H6 & _ & _ & H9).
  split; [exact H1|]. split; [exact H2|].
  split; [exact (H6 eq_refl)|exact H9].
Defined.

Lemma Starfield_dead_star_witness :
  (∀ n, 0 ≤ demo_rnd n) ∧ starfield_ok demo_sky ∧ 0 ≤ 1 < MAX_STARS ∧
  star_age (star_at 1 (stars demo_sky)) = 0 ∧
  (star_at 1 (stars (ICLED_StarfieldEffect demo_rnd 20 100 demo_sky demo_world).1)
   = star_at 1 (stars demo_sky) ∨
   (0 ≤ star_index
          (star_at 1
             (stars (ICLED_StarfieldEffect demo_rnd 20 100 demo_sky demo_world).1))
      < ICLED_LED_COUNT ∧
    3 ≤ star_age
          (star_at 1
             (stars (ICLED_StarfieldEffect demo_rnd 20 100 demo_sky demo_world).1))
      ≤ 7 ∧
    (star_color
       (star_at 1
          (stars (ICLED_StarfieldEffect demo_rnd 20 100 demo_sky demo_world).1))
     = 0 ∨
     star_color
       (star_at 1
          (stars (ICLED_StarfieldEffect demo_rnd 20 100 demo_sky demo_world).1))
     = 1))).
Proof.
  assert (0 ≤ 1 < MAX_STARS) as Hi by (unfold MAX_STARS; lia).
  assert (star_age (star_at 1 (stars demo_sky)) = 0) as Hdead
    by (vm_compute; reflexivity).
  split; [exact demo_rnd_nonneg|]. split; [exact demo_sky_ok|].
  split; [exact Hi|]. split; [exact Hdead|].
  exact (Starfield_dead_star demo_rnd 20 100 demo_sky demo_world 1
           demo_rnd_nonneg demo_sky_ok Hi Hdead).
Defined.

End MoreRuns.
